(** * ddscubemap: assembling a DDS cube map from six DDS face images

    A shallow embedding of [src/ddscubemap.cpp].  The program reads six DDS
    files, checks each header, and writes one DDS file whose header is the
    first face's header with the complete-cubemap capability bits set,
    followed by the six pixel payloads.

    Conventions of the embedding:
    - a [uint32_t] is a [Z] in [0, 2^32); every arithmetic step that could
      leave that range is wrapped with [wrap32];
    - a file is the [list byte] that the program's [read] call returned;
    - the header structs are overlaid on the buffer by a pointer cast in the
      source; the embedding decodes them field by field, least significant
      byte first (the byte order of the DDS container and of the hosts the
      tool is built for);
    - [std::cerr] is a list of messages, one constructor per output statement;
    - an access outside the bounds of [aBuffer] is an outcome of its own. *)

From Stdlib Require Import String Strings.Byte.
From Stdlib Require Import ZArith List Bool Lia.
Import ListNotations.

Local Open Scope Z_scope.

(* ------------------------------------------------------------------ *)
(** ** Machine integers and bytes *)

Definition wrap32 (z : Z) : Z := z mod 2 ^ 32.

Definition uint32 (z : Z) : Prop := 0 <= z < 2 ^ 32.

Definition byte_to_Z (b : byte) : Z := Z.of_N (Byte.to_N b).

Definition byte_of_Z (z : Z) : byte :=
  match Byte.of_N (Z.to_N (z mod 256)) with
  | Some b => b
  | None => x00
  end.

(** Four bytes of memory read as one [uint32_t]. *)
Definition le32 (b0 b1 b2 b3 : byte) : Z :=
  byte_to_Z b0 + 256 * (byte_to_Z b1 + 256 * (byte_to_Z b2 + 256 * byte_to_Z b3)).

(** The four bytes of memory that hold a [uint32_t]. *)
Definition bytes_of_le32 (z : Z) : list byte :=
  [ byte_of_Z z; byte_of_Z (z / 256); byte_of_Z (z / 65536); byte_of_Z (z / 16777216) ].

(** A byte window read as consecutive 32-bit words; a trailing group of
    fewer than four bytes is not a word. *)
Fixpoint words_of_bytes (bs : list byte) : list Z :=
  match bs with
  | b0 :: b1 :: b2 :: b3 :: rest => le32 b0 b1 b2 b3 :: words_of_bytes rest
  | _ => []
  end.

Definition bytes_of_words (ws : list Z) : list byte :=
  flat_map bytes_of_le32 ws.

(* ------------------------------------------------------------------ *)
(** ** The header structures *)

(** [struct DDSPixelFormat]; its [Size] and [Flags] members carry the prefix
    [PF_] because record fields share one name space. *)
Record DDSPixelFormat : Type := mkDDSPixelFormat {
  PF_Size     : Z;
  PF_Flags    : Z;
  FourCC      : Z;
  RGBBitCount : Z;
  RBitMask    : Z;
  GBitMask    : Z;
  BBitMask    : Z;
  ABitMask    : Z
}.

(** [struct DDSFileHeader]; [Reserved1] is the array of eleven words. *)
Record DDSFileHeader : Type := mkDDSFileHeader {
  Size              : Z;
  Flags             : Z;
  Height            : Z;
  Width             : Z;
  PitchOrLinearSize : Z;
  Depth             : Z;
  MipMapCount       : Z;
  Reserved1         : list Z;
  PixelFormatDef    : DDSPixelFormat;
  Caps              : Z;
  Caps2             : Z;
  Caps3             : Z;
  Caps4             : Z;
  Reserved2         : Z
}.

(** [enum { DDSCompleteCubemap = 0xFE00 }]. *)
Definition DDSCompleteCubemap : Z := 0xFE00.

(** [bool IscompleteCubemap() const
      { return (Caps2 & DDSFileHeader::DDSCompleteCubemap) != 0; }] *)
Definition IscompleteCubemap (h : DDSFileHeader) : bool :=
  negb (Z.land (Caps2 h) DDSCompleteCubemap =? 0).

(** [sizeof(DDSFileHeader)]: 31 words of four bytes. *)
Definition sizeof_DDSFileHeader : nat := 124.

Definition word (ws : list Z) (i : nat) : Z := nth i ws 0.

(** The struct as laid out in memory, word by word. *)
Definition header_of_words (ws : list Z) : DDSFileHeader :=
  {| Size := word ws 0;
     Flags := word ws 1;
     Height := word ws 2;
     Width := word ws 3;
     PitchOrLinearSize := word ws 4;
     Depth := word ws 5;
     MipMapCount := word ws 6;
     Reserved1 := firstn 11 (skipn 7 ws);
     PixelFormatDef :=
       {| PF_Size := word ws 18;
          PF_Flags := word ws 19;
          FourCC := word ws 20;
          RGBBitCount := word ws 21;
          RBitMask := word ws 22;
          GBitMask := word ws 23;
          BBitMask := word ws 24;
          ABitMask := word ws 25 |};
     Caps := word ws 26;
     Caps2 := word ws 27;
     Caps3 := word ws 28;
     Caps4 := word ws 29;
     Reserved2 := word ws 30 |}.

Definition words_of_header (h : DDSFileHeader) : list Z :=
  [ Size h; Flags h; Height h; Width h; PitchOrLinearSize h; Depth h;
    MipMapCount h ]
  ++ Reserved1 h
  ++ [ PF_Size (PixelFormatDef h); PF_Flags (PixelFormatDef h);
       FourCC (PixelFormatDef h); RGBBitCount (PixelFormatDef h);
       RBitMask (PixelFormatDef h); GBitMask (PixelFormatDef h);
       BBitMask (PixelFormatDef h); ABitMask (PixelFormatDef h) ]
  ++ [ Caps h; Caps2 h; Caps3 h; Caps4 h; Reserved2 h ].

(** [*(DDSFileHeader* )p]: the struct read from 124 bytes of memory. *)
Definition decode_header (bs : list byte) : DDSFileHeader :=
  header_of_words (words_of_bytes (firstn sizeof_DDSFileHeader bs)).

(** [(const char* )&h, sizeof(h)]: the 124 bytes of memory of the struct. *)
Definition encode_header (h : DDSFileHeader) : list byte :=
  bytes_of_words (words_of_header h).

(** [h.Caps2 = v], every other member left as it is. *)
Definition set_Caps2 (h : DDSFileHeader) (v : Z) : DDSFileHeader :=
  {| Size := Size h;
     Flags := Flags h;
     Height := Height h;
     Width := Width h;
     PitchOrLinearSize := PitchOrLinearSize h;
     Depth := Depth h;
     MipMapCount := MipMapCount h;
     Reserved1 := Reserved1 h;
     PixelFormatDef := PixelFormatDef h;
     Caps := Caps h;
     Caps2 := v;
     Caps3 := Caps3 h;
     Caps4 := Caps4 h;
     Reserved2 := Reserved2 h |}.

(** A header all of whose members fit their C types. *)
Definition header_wf (h : DDSFileHeader) : Prop :=
  Forall uint32 (words_of_header h) /\ length (Reserved1 h) = 11%nat.

(* ------------------------------------------------------------------ *)
(** ** The complete mip chain length (lines 140-142)

    [uint32_t aNbMipComplete = 1;
     const uint32_t aMaxDim = Height > Width ? Height : Width;
     for (uint32_t aDimIter = aMaxDim; aDimIter > 1;
          ++aNbMipComplete, aDimIter /= 2) {}]

    The loop is given fuel; [None] means the fuel ran out. *)

Fixpoint mip_loop (fuel : nat) (aDimIter aNbMipComplete : Z) : option Z :=
  match fuel with
  | O => None
  | S fuel' =>
      if aDimIter >? 1
      then mip_loop fuel' (aDimIter / 2) (wrap32 (aNbMipComplete + 1))
      else Some aNbMipComplete
  end.

Definition aMaxDim (aWidth aHeight : Z) : Z :=
  if aHeight >? aWidth then aHeight else aWidth.

Definition mip_fuel : nat := 40.

Definition expectedMipCount (aWidth aHeight : Z) : option Z :=
  mip_loop mip_fuel (aMaxDim aWidth aHeight) 1.

(* ------------------------------------------------------------------ *)
(** ** Reading the buffer *)

(** [n] bytes of [buf] from index [off], one indexed read per byte; [None]
    as soon as one index is outside the buffer. *)
Fixpoint read_bytes (buf : list byte) (off n : nat) : option (list byte) :=
  match n with
  | O => Some []
  | S n' =>
      match nth_error buf off with
      | None => None
      | Some b =>
          match read_bytes buf (S off) n' with
          | None => None
          | Some bs => Some (b :: bs)
          end
      end
  end.

(** Lexicographic order on bytes taken as unsigned characters. *)
Fixpoint compare_bytes (xs ys : list byte) : comparison :=
  match xs, ys with
  | x :: xs', y :: ys' =>
      match N.compare (Byte.to_N x) (Byte.to_N y) with
      | Eq => compare_bytes xs' ys'
      | c => c
      end
  | _, _ => Eq
  end.

(** [memcmp (&buf[0], s, n)]: the sign of the result, or [None] when the
    [n] bytes are not all inside [buf]. *)
Definition memcmp (buf s : list byte) (n : nat) : option comparison :=
  match read_bytes buf 0 n with
  | None => None
  | Some xs => Some (compare_bytes xs (firstn n s))
  end.

(** The string literal ["DDS "]. *)
Definition DDS_magic : list byte := [x44; x44; x53; x20].

Definition is_Eq (c : comparison) : bool :=
  match c with Eq => true | _ => false end.

(* ------------------------------------------------------------------ *)
(** ** The program state *)

(** One constructor per statement that writes to [std::cerr]. *)
Inductive Msg : Type :=
| MsgSyntaxError
| MsgUnableToRead (aPath : string)
| MsgNotDDS (aPath : string)
| MsgNotValidDDS (aPath : string)
| MsgSide (aSide : nat) (aWidth aHeight aFourCC aNbMips : Z)
| MsgIncompleteMips (aNbMips aNbMipComplete : Z)
| MsgNotSuitable (aPath : string)
| MsgInconsistent (aPath : string)
| MsgUnableToWrite (aPath : string).

(** The error kinds of the specification, by message. *)
Inductive ErrorKind : Type :=
| UsageError
| IoError
| NotDdsError
| InvalidHeaderError
| NotCubemapCompatibleError
| InconsistentFacesError.

Definition error_kind (m : Msg) : option ErrorKind :=
  match m with
  | MsgSyntaxError => Some UsageError
  | MsgUnableToRead _ => Some IoError
  | MsgNotDDS _ => Some NotDdsError
  | MsgNotValidDDS _ => Some InvalidHeaderError
  | MsgSide _ _ _ _ _ => None
  | MsgIncompleteMips _ _ => None
  | MsgNotSuitable _ => Some NotCubemapCompatibleError
  | MsgInconsistent _ => Some InconsistentFacesError
  | MsgUnableToWrite _ => Some IoError
  end.

(** An input file as the program sees it: its path and the bytes that
    [open], [tellg] and [read] deliver, [None] when the file cannot be
    opened or is read short. *)
Record InFile : Type := mkInFile {
  in_path : string;
  in_data : option (list byte)
}.

(** What the output stream does: whether [open] succeeds and whether the
    stream is still [good()] after [close]. *)
Record OutEnv : Type := mkOutEnv {
  out_opens : bool;
  out_good  : bool
}.

Record State : Type := mkState {
  cerr        : list Msg;
  aResFile    : option (list byte);   (* [None]: not opened *)
  aResHeader  : DDSFileHeader;
  anInHeaders : list DDSFileHeader
}.

Inductive Outcome : Type :=
| Return (code : Z) (st : State)
| OutOfBounds (st : State)
| OutOfFuel (st : State).

Inductive Flow : Type :=
| Next (st : State)
| Stop (o : Outcome).

Definition say (m : Msg) (st : State) : State :=
  {| cerr := cerr st ++ [m];
     aResFile := aResFile st;
     aResHeader := aResHeader st;
     anInHeaders := anInHeaders st |}.

(** [aResFile.write (bs, n)]; a stream that is not open takes nothing. *)
Definition write (bs : list byte) (st : State) : State :=
  {| cerr := cerr st;
     aResFile := option_map (fun o => o ++ bs) (aResFile st);
     aResHeader := aResHeader st;
     anInHeaders := anInHeaders st |}.

Definition open_out (st : State) : State :=
  {| cerr := cerr st;
     aResFile := Some [];
     aResHeader := aResHeader st;
     anInHeaders := anInHeaders st |}.

Definition set_aResHeader (h : DDSFileHeader) (st : State) : State :=
  {| cerr := cerr st;
     aResFile := aResFile st;
     aResHeader := h;
     anInHeaders := anInHeaders st |}.

Fixpoint set_nth {A : Type} (i : nat) (x : A) (l : list A) : list A :=
  match l, i with
  | [], _ => []
  | _ :: l', O => x :: l'
  | y :: l', S i' => y :: set_nth i' x l'
  end.

(** [anInHeaders[aSide] = h]. *)
Definition set_anInHeader (aSide : nat) (h : DDSFileHeader) (st : State) : State :=
  {| cerr := cerr st;
     aResFile := aResFile st;
     aResHeader := aResHeader st;
     anInHeaders := set_nth aSide h (anInHeaders st) |}.

Definition zero_pixel_format : DDSPixelFormat :=
  mkDDSPixelFormat 0 0 0 0 0 0 0 0.

Definition zero_header : DDSFileHeader :=
  mkDDSFileHeader 0 0 0 0 0 0 0 (repeat 0 11) zero_pixel_format 0 0 0 0 0.

(** The locals of [main] before the loop.  [aResHeader] and [anInHeaders]
    are not initialised in the source; no element is read before the loop
    has written it, so the value chosen here is never observed. *)
Definition initial_state : State :=
  {| cerr := [];
     aResFile := None;
     aResHeader := zero_header;
     anInHeaders := repeat zero_header 6 |}.

(* ------------------------------------------------------------------ *)
(** ** The loop of [main] (lines 97-181) *)

(** Line 127: the test that rejects a header as not valid DDS. *)
Definition header_invalid (h : DDSFileHeader) : bool :=
  negb (Size h =? 124)
  || (Width h =? 0)
  || (Height h =? 0)
  || negb (PF_Size (PixelFormatDef h) =? 32).

(** Line 171: the test that rejects a face as inconsistent with side 0. *)
Definition header_inconsistent (aSrcHeader aFirstHeader : DDSFileHeader) : bool :=
  negb (Width aSrcHeader =? Width aFirstHeader)
  || negb (Height aSrcHeader =? Height aFirstHeader)
  || negb (FourCC (PixelFormatDef aSrcHeader) =? FourCC (PixelFormatDef aFirstHeader)).

(** Lines 154-178: the first side opens the result file and writes the
    magic and the header; the other sides are compared with side 0. *)
Definition first_or_check (env : OutEnv) (anOutput : string) (aSide : nat)
    (aPath : string) (aSrcHeader : DDSFileHeader) (st : State) : Flow :=
  if Nat.eqb aSide 0 then
    let st1 :=
      set_aResHeader
        (set_Caps2 aSrcHeader (Z.lor (Caps2 aSrcHeader) DDSCompleteCubemap)) st in
    if out_opens env then
      Next (write (encode_header (aResHeader st1))
              (write DDS_magic (open_out st1)))
    else
      Stop (Return 1 (say (MsgUnableToWrite anOutput) st1))
  else
    let aFirstHeader := nth 0 (anInHeaders st) zero_header in
    if header_inconsistent aSrcHeader aFirstHeader
    then Stop (Return 1 (say (MsgInconsistent aPath) st))
    else Next st.

(** One iteration of [for (size_t aSide = 0; aSide < 6; ++aSide)].
    [aBuffer] is resized to the size of the file and filled by [read] in
    every iteration, so its elements are the bytes of the file; elements of
    an earlier file beyond that size are outside the vector.  The header is
    read from the 124 bytes at index 4 and the payload from index 128 on,
    both inside a buffer that has passed the size test. *)
Definition main_body (env : OutEnv) (anOutput : string) (aSide : nat)
    (anInFile : InFile) (st : State) : Flow :=
  match in_data anInFile with
  | None => Stop (Return 1 (say (MsgUnableToRead (in_path anInFile)) st))
  | Some aBuffer =>
      let aSize := length aBuffer in
      match memcmp aBuffer DDS_magic 4 with
      | None => Stop (OutOfBounds st)
      | Some c =>
          if negb (is_Eq c) || (aSize <? 128)%nat
          then Stop (Return 1 (say (MsgNotDDS (in_path anInFile)) st))
          else
            let aSrcHeader := decode_header (skipn 4 aBuffer) in
            let st1 := set_anInHeader aSide aSrcHeader st in
            if header_invalid aSrcHeader
            then Stop (Return 1 (say (MsgNotValidDDS (in_path anInFile)) st1))
            else
              let st2 :=
                say (MsgSide aSide (Width aSrcHeader) (Height aSrcHeader)
                       (FourCC (PixelFormatDef aSrcHeader))
                       (MipMapCount aSrcHeader)) st1 in
              match expectedMipCount (Width aSrcHeader) (Height aSrcHeader) with
              | None => Stop (OutOfFuel st2)
              | Some aNbMipComplete =>
                  let st3 :=
                    if negb (aNbMipComplete =? MipMapCount aSrcHeader)
                    then say (MsgIncompleteMips (MipMapCount aSrcHeader)
                                aNbMipComplete) st2
                    else st2 in
                  if negb (Width aSrcHeader =? Height aSrcHeader)
                  then Stop (Return 1 (say (MsgNotSuitable (in_path anInFile)) st3))
                  else
                    match first_or_check env anOutput aSide (in_path anInFile)
                            aSrcHeader st3 with
                    | Stop o => Stop o
                    | Next st4 => Next (write (skipn 128 aBuffer) st4)
                    end
              end
      end
  end.

(** The loop over the inputs, from side [aSide] on. *)
Fixpoint main_loop (env : OutEnv) (anOutput : string) (aSide : nat)
    (anInput : list InFile) (st : State) : Flow :=
  match anInput with
  | [] => Next st
  | anInFile :: rest =>
      match main_body env anOutput aSide anInFile st with
      | Stop o => Stop o
      | Next st' => main_loop env anOutput (S aSide) rest st'
      end
  end.

Definition string_empty (s : string) : bool :=
  match s with EmptyString => true | _ => false end.

(** [main] from line 86 on: [anInput] and [anOutput] are the positional
    arguments and the argument of [-o]. *)
Definition main (env : OutEnv) (anInput : list InFile) (anOutput : string) : Outcome :=
  if negb (Nat.eqb (length anInput) 6) || string_empty anOutput
  then Return 1 (say MsgSyntaxError initial_state)
  else
    match main_loop env anOutput 0 anInput initial_state with
    | Stop o => o
    | Next st =>
        if out_good env
        then Return 0 st
        else Return 1 (say (MsgUnableToWrite anOutput) st)
    end.

(** What an outcome leaves behind. *)
Definition final_state (o : Outcome) : State :=
  match o with
  | Return _ st => st
  | OutOfBounds st => st
  | OutOfFuel st => st
  end.

(** The error the run ended with: the kind of the last message when the
    exit status is 1. *)
Definition failure (o : Outcome) : option ErrorKind :=
  match o with
  | Return 1 st =>
      match last (map Some (cerr st)) None with
      | Some m => error_kind m
      | None => None
      end
  | _ => None
  end.

Definition last_msg (o : Outcome) : option Msg :=
  last (map Some (cerr (final_state o))) None.

(* ------------------------------------------------------------------ *)
(** ** Notions used in the statements *)

(** The chain of the specification, in its words: the sizes obtained from
    [d] by repeated integer halving, down to and including 1. *)
Fixpoint spec_mip_chain_from (fuel : nat) (d : Z) : list Z :=
  match fuel with
  | O => []
  | S fuel' => d :: (if 1 <? d then spec_mip_chain_from fuel' (d / 2) else [])
  end.

Definition spec_mip_chain (d : Z) : list Z :=
  spec_mip_chain_from (S (Z.to_nat d)) d.

Definition spec_mip_count (d : Z) : Z := Z.of_nat (length (spec_mip_chain d)).

(** What one side that passes the header test prints: the [Side #...] line
    and, when the declared count differs from the complete one, the warning. *)
Definition side_report (aSide : nat) (h : DDSFileHeader) : list Msg :=
  MsgSide aSide (Width h) (Height h) (FourCC (PixelFormatDef h)) (MipMapCount h)
  :: match expectedMipCount (Width h) (Height h) with
     | Some aNbMipComplete =>
         if negb (aNbMipComplete =? MipMapCount h)
         then [MsgIncompleteMips (MipMapCount h) aNbMipComplete]
         else []
     | None => []
     end.

Definition say_all (ms : list Msg) (st : State) : State :=
  {| cerr := cerr st ++ ms;
     aResFile := aResFile st;
     aResHeader := aResHeader st;
     anInHeaders := anInHeaders st |}.

(** The state after the [Side #...] line and the mip warning. *)
Definition report_side (aSide : nat) (h : DDSFileHeader) (st : State) : State :=
  say_all (side_report aSide h) st.

(** The header the loop reads from a buffer, and the bytes it copies. *)
Definition face_header (aBuffer : list byte) : DDSFileHeader :=
  decode_header (skipn 4 aBuffer).

Definition face_payload (aBuffer : list byte) : list byte := skipn 128 aBuffer.

(** The header written to the result file for a first side [h]. *)
Definition result_header (h : DDSFileHeader) : DDSFileHeader :=
  set_Caps2 h (Z.lor (Caps2 h) DDSCompleteCubemap).

(** A buffer that passes every test the loop makes on one file alone. *)
Definition face_sound (buf : list byte) : Prop :=
  firstn 4 buf = DDS_magic
  /\ (128 <= length buf)%nat
  /\ Size (face_header buf) = 124
  /\ PF_Size (PixelFormatDef (face_header buf)) = 32
  /\ Width (face_header buf) <> 0
  /\ Height (face_header buf) <> 0
  /\ Width (face_header buf) = Height (face_header buf).

(** Agreement with the first side on the three members line 171 compares. *)
Definition face_fits (aFirstHeader h : DDSFileHeader) : Prop :=
  Width h = Width aFirstHeader
  /\ Height h = Height aFirstHeader
  /\ FourCC (PixelFormatDef h) = FourCC (PixelFormatDef aFirstHeader).

(** The state a sound first side leaves behind. *)
Definition after_first (buf : list byte) (st : State) : State :=
  let h := face_header buf in
  let st3 := report_side 0 h (set_anInHeader 0 h st) in
  let st4 := set_aResHeader (result_header h) st3 in
  write (face_payload buf)
    (write (encode_header (result_header h)) (write DDS_magic (open_out st4))).

(** The state a sound and consistent later side leaves behind. *)
Definition after_other (aSide : nat) (buf : list byte) (st : State) : State :=
  let h := face_header buf in
  write (face_payload buf) (report_side aSide h (set_anInHeader aSide h st)).

(** What the sides [aSide], [aSide + 1], ... print when all of them pass. *)
Fixpoint run_report (aSide : nat) (bufs : list (list byte)) : list Msg :=
  match bufs with
  | [] => []
  | b :: bufs' => side_report aSide (face_header b) ++ run_report (S aSide) bufs'
  end.

(** The result file of a run over sound, mutually consistent sides. *)
Definition result_file (b0 : list byte) (bufs : list (list byte)) : list byte :=
  DDS_magic ++ encode_header (result_header (face_header b0))
    ++ concat (map face_payload (b0 :: bufs)).

(* ------------------------------------------------------------------ *)
(** ** Sample inputs *)

(** A valid header of the given dimensions, mip count, format and [Caps2]. *)
Definition sample_header (aWidth aHeight aNbMips aFourCC aCaps2 : Z) : DDSFileHeader :=
  mkDDSFileHeader 124 0 aHeight aWidth 0 0 aNbMips (repeat 0 11)
    (mkDDSPixelFormat 32 4 aFourCC 0 0 0 0 0) 0x1008 aCaps2 0 0 0.

(** The tag [DXT1] as the 32-bit value of [FourCC]. *)
Definition DXT1 : Z := 0x31545844.

Definition sample_env : OutEnv := mkOutEnv true true.

(** Six 4x4 sides with three mip levels, none of them flagged as a cube map. *)
Definition sample_bufs : list (list byte) :=
  [ DDS_magic ++ encode_header (sample_header 4 4 3 DXT1 0) ++ [x01; x02];
    DDS_magic ++ encode_header (sample_header 4 4 3 DXT1 0) ++ [x03];
    DDS_magic ++ encode_header (sample_header 4 4 3 DXT1 0) ++ [];
    DDS_magic ++ encode_header (sample_header 4 4 3 DXT1 0) ++ [x04; x05; x06];
    DDS_magic ++ encode_header (sample_header 4 4 3 DXT1 0) ++ [x07];
    DDS_magic ++ encode_header (sample_header 4 4 3 DXT1 0) ++ [x08] ].

Definition sample_paths : list string :=
  [ "PX.dds"; "NX.dds"; "PY.dds"; "NY.dds"; "PZ.dds"; "NZ.dds" ]%string.

Definition sample_input : list InFile :=
  map (fun pb => mkInFile (fst pb) (Some (snd pb))) (combine sample_paths sample_bufs).

Ltac solve_face_sound :=
  unfold face_sound; vm_compute;
  repeat split; try reflexivity; try discriminate; try (intros; discriminate);
  try (apply Nat.leb_le; reflexivity).

Ltac solve_face_fits :=
  unfold face_fits; vm_compute; repeat split; reflexivity.

(** A header that carries the cube map bit and the bit of the +X face
    only: a cube map with one face. *)
Definition one_face_header : DDSFileHeader := sample_header 4 4 3 DXT1 0x600.

(** A 4x4 side whose header declares the size 100 instead of 124. *)
Definition bad_size_buf : list byte :=
  DDS_magic
  ++ encode_header
       (mkDDSFileHeader 100 0 4 4 0 0 3 (repeat 0 11)
          (mkDDSPixelFormat 32 4 DXT1 0 0 0 0 0) 0x1008 0 0 0 0)
  ++ [x09].

(** A first input of no bytes at all, followed by five sound sides. *)
Definition empty_first_input : list InFile :=
  mkInFile "PX.dds" (Some []) :: tl sample_input.

(** A side of 8x4 texels with four mip levels declared as three; in every
    other member it is the header of the sample sides. *)
Definition wide_buf : list byte :=
  DDS_magic ++ encode_header (sample_header 8 4 3 DXT1 0) ++ [x0a].

Definition wide_third_input : list InFile :=
  firstn 2 sample_input ++ mkInFile "PY.dds" (Some wide_buf) :: skipn 3 sample_input.





(** Six sides of 256x256 texels that declare five mip levels. *)
Definition five_mips_bufs : list (list byte) :=
  repeat (DDS_magic ++ encode_header (sample_header 256 256 5 DXT1 0) ++ [x0d]) 6.

Definition five_mips_input : list InFile :=
  map (fun pb => mkInFile (fst pb) (Some (snd pb)))
    (combine sample_paths five_mips_bufs).

(* ------------------------------------------------------------------ *)
(** ** The command line (lines 57-91) and the whole program *)

(** The two lines [printHelp] writes to [std::cout]. *)
Definition printHelp (cout : list string) : list string :=
  cout ++ [ "Usage: ddscubemap PX.dds NX.dds PY.dds NY.dds PZ.dds NZ.dds -o result.dds";
            "Created by Kirill Gavrilov <kirill@sview.ru>" ]%string.

(** [anArg == "-help" || anArg == "--help"]. *)
Definition is_help (anArg : string) : bool :=
  String.eqb anArg "-help" || String.eqb anArg "--help".

(** [anArg == "-o"]. *)
Definition is_o (anArg : string) : bool := String.eqb anArg "-o".

(** How the loop over the arguments ends: with the positional arguments
    and the output path, at a help option, or at a [-o] that is the last
    argument, where [anOutput] is assigned from [theArgVec[theNbArgs]], the
    null pointer that ends the argument vector. *)
Inductive Args : Type :=
| ArgsParsed (anInput : list string) (anOutput : string)
| ArgsHelp
| ArgsNull.

(** Lines 68-85, from argument [anArgIter] on; [args] are the arguments
    still to be looked at. *)
Fixpoint parse_args (args : list string) (anInput : list string)
    (anOutput : string) : Args :=
  match args with
  | [] => ArgsParsed anInput anOutput
  | anArg :: rest =>
      if is_help anArg then ArgsHelp
      else if is_o anArg then
        match rest with
        | [] => ArgsNull
        | aValue :: rest' => parse_args rest' anInput aValue
        end
      else parse_args rest (anInput ++ [anArg]) anOutput
  end.

(** The files the loop of [main] opens: [reads aSide] is what opening and
    reading the path of side [aSide] delivers at that moment. *)
Fixpoint open_inputs (reads : nat -> option (list byte)) (aSide : nat)
    (anInput : list string) : list InFile :=
  match anInput with
  | [] => []
  | aPath :: rest => mkInFile aPath (reads aSide) :: open_inputs reads (S aSide) rest
  end.

(** The end of the program: what was written to [std::cout] and how [main]
    ended, or the assignment of a null pointer to a string. *)
Inductive Finish : Type :=
| Finished (cout : list string) (o : Outcome)
| NullArgument.

(** [main (theNbArgs, theArgVec)]; [argv] holds [theArgVec[0]] to
    [theArgVec[theNbArgs - 1]]. *)
Definition program (env : OutEnv) (reads : nat -> option (list byte))
    (argv : list string) : Finish :=
  if (length argv <=? 1)%nat
  then Finished (printHelp []) (Return 1 (say MsgSyntaxError initial_state))
  else
    match parse_args (tl argv) [] EmptyString with
    | ArgsHelp => Finished (printHelp []) (Return 1 initial_state)
    | ArgsNull => NullArgument
    | ArgsParsed anInput anOutput =>
        Finished [] (main env (open_inputs reads 0 anInput) anOutput)
    end.

(** An argument that is neither a help option nor [-o]. *)
Definition plain (anArg : string) : Prop :=
  is_help anArg = false /\ is_o anArg = false.

(** The exit status, when the run returns from [main]. *)
Definition exit_status (o : Outcome) : option Z :=
  match o with
  | Return code _ => Some code
  | OutOfBounds _ => None
  | OutOfFuel _ => None
  end.

(** A message that is not an error message. *)
Definition no_error (m : Msg) : Prop := error_kind m = None.

(** Six paths for a second run. *)
Definition six_copies (paths : list string) (buf : list byte) : list InFile :=
  map (fun aPath => mkInFile aPath (Some buf)) paths.

(* ================================================================== *)
(** * Properties *)


(* ------------------------------------------------------------------ *)
(** ** Bytes and words *)

Lemma byte_to_Z_range (b : byte) : 0 <= byte_to_Z b < 256.
Proof.
  unfold byte_to_Z. pose proof (Byte.to_N_bounded b). lia.
Qed.

Lemma byte_of_to_Z (b : byte) : byte_of_Z (byte_to_Z b) = b.
Proof.
  unfold byte_of_Z. pose proof (byte_to_Z_range b) as Hr.
  rewrite Z.mod_small by exact Hr.
  unfold byte_to_Z. rewrite N2Z.id, Byte.of_to_N. reflexivity.
Qed.

Lemma byte_to_of_Z (z : Z) : byte_to_Z (byte_of_Z z) = z mod 256.
Proof.
  unfold byte_of_Z, byte_to_Z.
  assert (Hm : 0 <= z mod 256 < 256) by (apply Z.mod_pos_bound; lia).
  destruct (Byte.of_N (Z.to_N (z mod 256))) as [b|] eqn:E.
  - apply Byte.to_of_N in E. rewrite E. rewrite Z2N.id; lia.
  - apply Byte.of_N_None_iff in E. lia.
Qed.

Lemma le32_range (b0 b1 b2 b3 : byte) : uint32 (le32 b0 b1 b2 b3).
Proof.
  unfold uint32, le32.
  pose proof (byte_to_Z_range b0). pose proof (byte_to_Z_range b1).
  pose proof (byte_to_Z_range b2). pose proof (byte_to_Z_range b3).
  change (2 ^ 32) with 4294967296. lia.
Qed.

Lemma byte_of_Z_add_mul (a b : Z) : byte_of_Z (a + 256 * b) = byte_of_Z a.
Proof.
  unfold byte_of_Z.
  rewrite (Z.mul_comm 256 b), Z.mod_add by lia. reflexivity.
Qed.

Lemma bytes_of_le32_le32 (b0 b1 b2 b3 : byte) :
  bytes_of_le32 (le32 b0 b1 b2 b3) = [b0; b1; b2; b3].
Proof.
  unfold bytes_of_le32, le32.
  pose proof (byte_to_Z_range b0) as H0. pose proof (byte_to_Z_range b1) as H1.
  pose proof (byte_to_Z_range b2) as H2. pose proof (byte_to_Z_range b3) as H3.
  transitivity [ byte_of_Z (byte_to_Z b0); byte_of_Z (byte_to_Z b1);
                 byte_of_Z (byte_to_Z b2); byte_of_Z (byte_to_Z b3) ];
    [| rewrite !byte_of_to_Z; reflexivity ].
  set (z0 := byte_to_Z b0) in *. set (z1 := byte_to_Z b1) in *.
  set (z2 := byte_to_Z b2) in *. set (z3 := byte_to_Z b3) in *.
  assert (D1 : (z0 + 256 * (z1 + 256 * (z2 + 256 * z3))) / 256
               = z1 + 256 * (z2 + 256 * z3)).
  { symmetry. apply (Z.div_unique _ 256 _ z0); lia. }
  assert (D2 : (z0 + 256 * (z1 + 256 * (z2 + 256 * z3))) / 65536
               = z2 + 256 * z3).
  { symmetry. apply (Z.div_unique _ 65536 _ (z0 + 256 * z1)); lia. }
  assert (D3 : (z0 + 256 * (z1 + 256 * (z2 + 256 * z3))) / 16777216 = z3).
  { symmetry. apply (Z.div_unique _ 16777216 _ (z0 + 256 * (z1 + 256 * z2))); lia. }
  rewrite D1, D2, D3, !byte_of_Z_add_mul. reflexivity.
Qed.

Lemma le32_bytes_of_le32 (z : Z) :
  uint32 z ->
  le32 (byte_of_Z z) (byte_of_Z (z / 256)) (byte_of_Z (z / 65536))
       (byte_of_Z (z / 16777216)) = z.
Proof.
  unfold uint32, le32. change (2 ^ 32) with 4294967296. intros Hz.
  rewrite !byte_to_of_Z.
  pose proof (Z.div_mod z 256 ltac:(lia)) as E0.
  pose proof (Z.div_mod (z / 256) 256 ltac:(lia)) as E1.
  pose proof (Z.div_mod (z / 256 / 256) 256 ltac:(lia)) as E2.
  rewrite (Z.div_div z 256 256) in E1, E2 by lia.
  rewrite (Z.div_div z (256 * 256) 256) in E2 by lia.
  change (256 * 256) with 65536 in *. change (65536 * 256) with 16777216 in *.
  assert (H3 : 0 <= z / 16777216 < 256).
  { split.
    - apply Z.div_pos; lia.
    - apply Z.div_lt_upper_bound; lia. }
  rewrite (Z.mod_small (z / 16777216) 256) by exact H3.
  lia.
Qed.

Lemma bytes_of_words_of_bytes (n : nat) :
  forall bs, length bs = (4 * n)%nat -> bytes_of_words (words_of_bytes bs) = bs.
Proof.
  induction n as [|n IH]; intros bs Hlen.
  - destruct bs; [reflexivity | discriminate].
  - destruct bs as [|b0 [|b1 [|b2 [|b3 rest]]]]; simpl in Hlen; try lia.
    cbn [words_of_bytes]. unfold bytes_of_words in *. cbn [flat_map].
    rewrite bytes_of_le32_le32. cbn [app]. rewrite IH by lia. reflexivity.
Qed.

Lemma words_of_bytes_of_words (ws : list Z) :
  Forall uint32 ws -> words_of_bytes (bytes_of_words ws) = ws.
Proof.
  induction 1 as [|z ws Hz _ IH]; [reflexivity|].
  unfold bytes_of_words in *. cbn [flat_map]. unfold bytes_of_le32 at 1.
  cbn [app words_of_bytes]. rewrite le32_bytes_of_le32 by exact Hz.
  rewrite IH. reflexivity.
Qed.

Lemma length_bytes_of_words (ws : list Z) :
  length (bytes_of_words ws) = (4 * length ws)%nat.
Proof.
  induction ws as [|z ws IH]; [reflexivity|].
  unfold bytes_of_words in *. cbn [flat_map]. rewrite length_app, IH.
  cbn [bytes_of_le32 length]. lia.
Qed.

Lemma length_words_of_bytes (n : nat) :
  forall bs, length bs = (4 * n)%nat -> length (words_of_bytes bs) = n.
Proof.
  induction n as [|n IH]; intros bs Hlen.
  - destruct bs; [reflexivity | discriminate].
  - destruct bs as [|b0 [|b1 [|b2 [|b3 rest]]]]; simpl in Hlen; try lia.
    cbn [words_of_bytes length]. rewrite IH by lia. reflexivity.
Qed.

Lemma words_of_bytes_uint32 (bs : list byte) : Forall uint32 (words_of_bytes bs).
Proof.
  remember (length bs) as k eqn:Hk.
  revert bs Hk. induction k as [k IH] using lt_wf_ind. intros bs Hk.
  destruct bs as [|b0 [|b1 [|b2 [|b3 rest]]]]; cbn [words_of_bytes];
    try constructor.
  - apply le32_range.
  - apply (IH (length rest)); [subst k; simpl; lia | reflexivity].
Qed.

(* ------------------------------------------------------------------ *)
(** ** Headers in memory *)

Lemma length_words_of_header (h : DDSFileHeader) :
  length (Reserved1 h) = 11%nat -> length (words_of_header h) = 31%nat.
Proof.
  intros H. unfold words_of_header. rewrite !length_app, H. reflexivity.
Qed.

Lemma header_of_words_of_header (h : DDSFileHeader) :
  length (Reserved1 h) = 11%nat -> header_of_words (words_of_header h) = h.
Proof.
  destruct h as [s f ht w p d m r [ps pf cc bc rm gm bm am] c1 c2 c3 c4 r2].
  cbn [Reserved1]. intros Hr.
  do 11 (destruct r as [|? r]; [discriminate Hr|]).
  destruct r; [reflexivity | discriminate Hr].
Qed.

Lemma words_of_header_of_words (ws : list Z) :
  length ws = 31%nat -> words_of_header (header_of_words ws) = ws.
Proof.
  intros Hlen.
  do 31 (destruct ws as [|? ws]; [discriminate Hlen|]).
  destruct ws; [reflexivity | discriminate Hlen].
Qed.

Lemma length_encode_header (h : DDSFileHeader) :
  length (Reserved1 h) = 11%nat -> length (encode_header h) = 124%nat.
Proof.
  intros H. unfold encode_header.
  rewrite length_bytes_of_words, length_words_of_header by exact H. reflexivity.
Qed.

Lemma length_Reserved1_decode (bs : list byte) :
  (124 <= length bs)%nat -> length (Reserved1 (decode_header bs)) = 11%nat.
Proof.
  intros Hlen. unfold decode_header, header_of_words. cbn [Reserved1].
  rewrite length_firstn, length_skipn.
  rewrite (length_words_of_bytes 31).
  - reflexivity.
  - rewrite length_firstn. unfold sizeof_DDSFileHeader. lia.
Qed.

(** Writing back a header that was read from memory gives the bytes it
    was read from. *)
Lemma encode_decode_header (bs : list byte) :
  (124 <= length bs)%nat ->
  encode_header (decode_header bs) = firstn 124 bs.
Proof.
  intros Hlen. unfold encode_header, decode_header.
  assert (H124 : length (firstn sizeof_DDSFileHeader bs) = (4 * 31)%nat).
  { rewrite length_firstn. unfold sizeof_DDSFileHeader. lia. }
  rewrite words_of_header_of_words by (apply (length_words_of_bytes 31); exact H124).
  apply (bytes_of_words_of_bytes 31). exact H124.
Qed.

Lemma decode_header_wf (bs : list byte) :
  (124 <= length bs)%nat -> header_wf (decode_header bs).
Proof.
  intros Hlen. split.
  - unfold decode_header.
    rewrite words_of_header_of_words.
    + apply words_of_bytes_uint32.
    + apply (length_words_of_bytes 31). rewrite length_firstn.
      unfold sizeof_DDSFileHeader. lia.
  - apply length_Reserved1_decode. exact Hlen.
Qed.

(** Reading a header from the bytes it was written to gives it back. *)
Lemma decode_encode_header (h : DDSFileHeader) (rest : list byte) :
  header_wf h -> decode_header (encode_header h ++ rest) = h.
Proof.
  intros [Hw Hr]. unfold decode_header.
  rewrite firstn_app.
  rewrite length_encode_header by exact Hr.
  change (sizeof_DDSFileHeader - 124)%nat with 0%nat. rewrite firstn_O, app_nil_r.
  rewrite firstn_all2 by (rewrite length_encode_header by exact Hr; apply Nat.le_refl).
  unfold encode_header. rewrite words_of_bytes_of_words by exact Hw.
  apply header_of_words_of_header. exact Hr.
Qed.

Lemma lor_uint32 (a b : Z) : uint32 a -> uint32 b -> uint32 (Z.lor a b).
Proof.
  unfold uint32. intros Ha Hb.
  destruct (Z.eq_dec (Z.lor a b) 0) as [E|E]; [rewrite E; lia|].
  assert (H0 : 0 <= Z.lor a b) by (apply Z.lor_nonneg; lia).
  split; [exact H0|].
  apply Z.log2_lt_pow2; [lia|].
  rewrite Z.log2_lor by lia.
  destruct (Z.eq_dec a 0) as [Ea|Ea]; destruct (Z.eq_dec b 0) as [Eb|Eb]; subst;
    cbn [Z.log2] in *.
  - exfalso. apply E. reflexivity.
  - rewrite Z.max_r by (apply Z.log2_nonneg). apply Z.log2_lt_pow2; lia.
  - rewrite Z.max_l by (apply Z.log2_nonneg). apply Z.log2_lt_pow2; lia.
  - apply Z.max_lub_lt; apply Z.log2_lt_pow2; lia.
Qed.

Lemma set_Caps2_wf (h : DDSFileHeader) (v : Z) :
  header_wf h -> uint32 v -> header_wf (set_Caps2 h v).
Proof.
  intros [Hw Hr] Hv. split; [|exact Hr].
  destruct h as [s f ht w p d m r [ps pf cc bc rm gm bm am] c1 c2 c3 c4 r2].
  unfold words_of_header, set_Caps2 in *. cbn in *.
  repeat match goal with
         | H : Forall _ (_ :: _) |- _ => inversion H; clear H; subst
         end.
  repeat (constructor; [assumption|]).
  match goal with H : Forall _ (r ++ _) |- _ => rename H into Happ end.
  apply Forall_app in Happ. destruct Happ as [Hres Htail].
  apply Forall_app. split; [exact Hres|].
  repeat match goal with
         | H : Forall _ (_ :: _) |- _ => inversion H; clear H; subst
         end.
  repeat (constructor; try assumption).
Qed.

(* ------------------------------------------------------------------ *)
(** ** The mip chain length *)

Lemma log2_half (d : Z) : 1 < d -> Z.log2 (d / 2) = Z.log2 d - 1.
Proof.
  intros Hd.
  change 2 with (2 ^ 1). rewrite <- Z.shiftr_div_pow2 by lia.
  rewrite Z.log2_shiftr by lia.
  assert (1 <= Z.log2 d).
  { change 1 with (Z.log2 2) at 1. apply Z.log2_le_mono. lia. }
  lia.
Qed.

Lemma log2_small (d : Z) : d <= 1 -> Z.log2 d = 0.
Proof.
  intros Hd. destruct (Z.eq_dec d 1) as [->|Hne]; [reflexivity|].
  apply Z.log2_nonpos. lia.
Qed.

Lemma mip_loop_log2 (fuel : nat) :
  forall d n,
    (Z.to_nat (Z.log2 d) < fuel)%nat ->
    0 <= n -> n + Z.log2 d < 2 ^ 32 ->
    mip_loop fuel d n = Some (n + Z.log2 d).
Proof.
  induction fuel as [|fuel IH]; intros d n Hfuel Hn Hbound; [lia|].
  cbn [mip_loop]. destruct (d >? 1) eqn:Hgt.
  - apply Z.gtb_lt in Hgt.
    pose proof (log2_half d Hgt) as Hhalf.
    assert (1 <= Z.log2 d).
    { change 1 with (Z.log2 2) at 1. apply Z.log2_le_mono. lia. }
    unfold wrap32. rewrite Z.mod_small by lia.
    rewrite IH; [f_equal; lia | lia | lia | lia].
  - assert (d <= 1) by (destruct (Z.gtb_spec d 1); [discriminate | lia]).
    rewrite log2_small by assumption. f_equal. lia.
Qed.

Lemma aMaxDim_max (w h : Z) : aMaxDim w h = Z.max w h.
Proof.
  unfold aMaxDim. destruct (Z.gtb_spec h w); lia.
Qed.

Lemma log2_uint32 (d : Z) : uint32 d -> 0 <= Z.log2 d < 32.
Proof.
  unfold uint32. intros [Hlo Hhi]. split; [apply Z.log2_nonneg|].
  destruct (Z.eq_dec d 0) as [->|Hne]; [reflexivity|].
  apply Z.log2_lt_pow2; lia.
Qed.

(** The loop ends within its fuel on every pair of 32-bit dimensions. *)
Lemma expectedMipCount_log2 (w h : Z) :
  uint32 w -> uint32 h ->
  expectedMipCount w h = Some (1 + Z.log2 (Z.max w h)).
Proof.
  intros Hw Hh. unfold expectedMipCount. rewrite aMaxDim_max.
  assert (Hm : uint32 (Z.max w h)) by (unfold uint32 in *; lia).
  pose proof (log2_uint32 _ Hm) as Hl.
  apply mip_loop_log2; unfold mip_fuel; lia.
Qed.

Lemma length_spec_mip_chain_from (fuel : nat) :
  forall d,
    (Z.to_nat (Z.log2 d) < fuel)%nat ->
    length (spec_mip_chain_from fuel d) = S (Z.to_nat (Z.log2 d)).
Proof.
  induction fuel as [|fuel IH]; intros d Hfuel; [lia|].
  cbn [spec_mip_chain_from length]. destruct (Z.ltb_spec 1 d) as [Hgt|Hle].
  - pose proof (log2_half d Hgt) as Hhalf.
    assert (1 <= Z.log2 d).
    { change 1 with (Z.log2 2) at 1. apply Z.log2_le_mono. lia. }
    rewrite IH by lia. rewrite Hhalf. lia.
  - rewrite log2_small by assumption. reflexivity.
Qed.

Lemma last_spec_mip_chain_from (fuel : nat) :
  forall d,
    1 <= d -> (Z.to_nat (Z.log2 d) < fuel)%nat ->
    last (spec_mip_chain_from fuel d) 0 = 1.
Proof.
  induction fuel as [|fuel IH]; intros d Hd Hfuel; [lia|].
  cbn [spec_mip_chain_from]. destruct (Z.ltb_spec 1 d) as [Hgt|Hle].
  - pose proof (log2_half d Hgt) as Hhalf.
    assert (1 <= Z.log2 d).
    { change 1 with (Z.log2 2) at 1. apply Z.log2_le_mono. lia. }
    assert (Hd2 : 1 <= d / 2) by (apply Z.div_le_lower_bound; lia).
    specialize (IH (d / 2) Hd2 ltac:(lia)).
    destruct (spec_mip_chain_from fuel (d / 2)) as [|x xs] eqn:E.
    + destruct fuel; [lia | discriminate E].
    + cbn [last]. exact IH.
  - cbn [last]. lia.
Qed.

Lemma log2_fits (d : Z) : 0 <= d -> (Z.to_nat (Z.log2 d) < S (Z.to_nat d))%nat.
Proof.
  intros Hd. destruct (Z.eq_dec d 0) as [->|Hne]; [cbn; lia|].
  pose proof (Z.log2_lt_lin d ltac:(lia)). pose proof (Z.log2_nonneg d). lia.
Qed.

Lemma spec_mip_count_log2 (d : Z) : 0 <= d -> spec_mip_count d = 1 + Z.log2 d.
Proof.
  intros Hd. unfold spec_mip_count, spec_mip_chain.
  rewrite length_spec_mip_chain_from by (apply log2_fits; exact Hd).
  pose proof (Z.log2_nonneg d). lia.
Qed.

(* ------------------------------------------------------------------ *)
(** ** The magic comparison *)

Lemma compare_byte_Eq (x y : byte) :
  N.compare (Byte.to_N x) (Byte.to_N y) = Eq <-> x = y.
Proof.
  rewrite N.compare_eq_iff. split; [|intros ->; reflexivity].
  intros E. pose proof (Byte.of_to_N x) as Hx. rewrite E, Byte.of_to_N in Hx.
  congruence.
Qed.

Lemma compare_bytes_Eq (xs : list byte) :
  forall ys, length xs = length ys ->
    (is_Eq (compare_bytes xs ys) = true <-> xs = ys).
Proof.
  induction xs as [|x xs IH]; intros [|y ys] Hlen; try discriminate Hlen.
  - split; reflexivity.
  - cbn [compare_bytes].
    destruct (N.compare (Byte.to_N x) (Byte.to_N y)) eqn:E.
    + apply compare_byte_Eq in E. subst y.
      rewrite IH by (simpl in Hlen; lia).
      split; [intros ->; reflexivity | intros H; injection H; auto].
    + split; [discriminate|].
      intros H. injection H as Hxy _. apply compare_byte_Eq in Hxy. congruence.
    + split; [discriminate|].
      intros H. injection H as Hxy _. apply compare_byte_Eq in Hxy. congruence.
Qed.

Lemma skipn_nth_error {A : Type} (l : list A) :
  forall off x, nth_error l off = Some x -> skipn off l = x :: skipn (S off) l.
Proof.
  induction l as [|y l IH]; intros [|off] x E; try discriminate E.
  - injection E as ->. reflexivity.
  - cbn [nth_error] in E. rewrite (skipn_cons (S off)).
    cbn [skipn]. apply IH. exact E.
Qed.

Lemma read_bytes_Some (buf : list byte) (n : nat) :
  forall off, (off + n <= length buf)%nat ->
    read_bytes buf off n = Some (firstn n (skipn off buf)).
Proof.
  induction n as [|n IH]; intros off Hlen; [reflexivity|].
  cbn [read_bytes].
  destruct (nth_error buf off) as [b|] eqn:E.
  - rewrite IH by lia. rewrite (skipn_nth_error buf off b E). reflexivity.
  - apply nth_error_None in E. lia.
Qed.

Lemma read_bytes_None (buf : list byte) (n : nat) :
  forall off, (off <= length buf < off + n)%nat -> read_bytes buf off n = None.
Proof.
  induction n as [|n IH]; intros off Hlen; [lia|].
  cbn [read_bytes].
  destruct (nth_error buf off) as [b|] eqn:E; [|reflexivity].
  assert (off < length buf)%nat by (apply nth_error_Some; congruence).
  rewrite IH by lia. reflexivity.
Qed.

(** With four bytes in the buffer the comparison reads inside it and
    tells whether the file starts with the magic. *)
Lemma memcmp_in_bounds (buf : list byte) :
  (4 <= length buf)%nat ->
  exists c, memcmp buf DDS_magic 4 = Some c
            /\ (is_Eq c = true <-> firstn 4 buf = DDS_magic).
Proof.
  intros Hlen. unfold memcmp. rewrite read_bytes_Some by lia.
  eexists. split; [reflexivity|].
  cbn [skipn]. change (firstn 4 DDS_magic) with DDS_magic.
  apply compare_bytes_Eq.
  rewrite length_firstn. change (length DDS_magic) with 4%nat. lia.
Qed.

Lemma memcmp_out_of_bounds (buf : list byte) :
  (length buf < 4)%nat -> memcmp buf DDS_magic 4 = None.
Proof.
  intros Hlen. unfold memcmp. rewrite read_bytes_None by lia. reflexivity.
Qed.

(* ------------------------------------------------------------------ *)
(** ** One side *)

Lemma header_wf_fields (h : DDSFileHeader) :
  header_wf h -> uint32 (Width h) /\ uint32 (Height h) /\ uint32 (Caps2 h).
Proof.
  intros [Hw Hr].
  rewrite <- (header_of_words_of_header h Hr).
  pose proof (length_words_of_header h Hr) as Hlen.
  set (ws := words_of_header h) in *. clearbody ws.
  rewrite Forall_forall in Hw.
  unfold header_of_words, word; cbn [Width Height Caps2].
  repeat split; try (apply Hw; apply nth_In; lia).
Qed.

Lemma cerr_report_side aSide h st :
  cerr (report_side aSide h st) = cerr st ++ side_report aSide h.
Proof. reflexivity. Qed.

Lemma face_header_wf (buf : list byte) :
  (128 <= length buf)%nat -> header_wf (face_header buf).
Proof.
  intros Hlen. apply decode_header_wf. rewrite length_skipn. lia.
Qed.

Lemma main_body_unreadable env anOutput aSide f st :
  in_data f = None ->
  main_body env anOutput aSide f st
  = Stop (Return 1 (say (MsgUnableToRead (in_path f)) st)).
Proof.
  intros E. unfold main_body. rewrite E. reflexivity.
Qed.

Lemma main_body_short env anOutput aSide f st buf :
  in_data f = Some buf -> (length buf < 4)%nat ->
  main_body env anOutput aSide f st = Stop (OutOfBounds st).
Proof.
  intros E Hlen. unfold main_body. rewrite E, memcmp_out_of_bounds by exact Hlen.
  reflexivity.
Qed.

Lemma main_body_not_dds env anOutput aSide f st buf :
  in_data f = Some buf -> (4 <= length buf)%nat ->
  firstn 4 buf <> DDS_magic \/ (length buf < 128)%nat ->
  main_body env anOutput aSide f st
  = Stop (Return 1 (say (MsgNotDDS (in_path f)) st)).
Proof.
  intros E Hlen Hbad. unfold main_body. rewrite E.
  destruct (memcmp_in_bounds buf Hlen) as (c & -> & Hc).
  destruct (is_Eq c) eqn:Ec; cbn [negb orb].
  - destruct Hbad as [Hm|Hs].
    + exfalso. apply Hm. apply Hc. reflexivity.
    + apply Nat.ltb_lt in Hs. rewrite Hs. reflexivity.
  - reflexivity.
Qed.

Lemma main_body_dds env anOutput aSide f st buf :
  in_data f = Some buf -> firstn 4 buf = DDS_magic -> (128 <= length buf)%nat ->
  main_body env anOutput aSide f st
  = let h := face_header buf in
    if header_invalid h
    then Stop (Return 1 (say (MsgNotValidDDS (in_path f))
                           (set_anInHeader aSide h st)))
    else
      let st3 := report_side aSide h (set_anInHeader aSide h st) in
      if negb (Width h =? Height h)
      then Stop (Return 1 (say (MsgNotSuitable (in_path f)) st3))
      else
        match first_or_check env anOutput aSide (in_path f) h st3 with
        | Stop o => Stop o
        | Next st4 => Next (write (face_payload buf) st4)
        end.
Proof.
  intros E Hm Hlen. unfold main_body. rewrite E.
  destruct (memcmp_in_bounds buf ltac:(lia)) as (c & -> & Hc).
  apply Hc in Hm. rewrite Hm. cbn [negb orb].
  assert (Hs : (length buf <? 128)%nat = false) by (apply Nat.ltb_ge; exact Hlen).
  rewrite Hs. cbv zeta. fold (face_header buf).
  destruct (header_invalid (face_header buf)); [reflexivity|].
  destruct (header_wf_fields _ (face_header_wf buf Hlen)) as (Hw & Hh & _).
  unfold report_side, side_report.
  rewrite (expectedMipCount_log2 _ _ Hw Hh).
  assert (Hsay : forall m1 m2 s, say m2 (say m1 s) = say_all [m1; m2] s).
  { intros m1 m2 s. unfold say, say_all. cbn [cerr aResFile aResHeader anInHeaders].
    rewrite <- app_assoc. reflexivity. }
  destruct (1 + Z.log2 (Z.max (Width (face_header buf)) (Height (face_header buf)))
            =? MipMapCount (face_header buf));
    cbn [negb];
    [| rewrite !(Hsay (MsgSide _ _ _ _ _) (MsgIncompleteMips _ _)) ]; reflexivity.
Qed.

Lemma header_invalid_false (h : DDSFileHeader) :
  header_invalid h = false
  <-> Size h = 124 /\ PF_Size (PixelFormatDef h) = 32
      /\ Width h <> 0 /\ Height h <> 0.
Proof.
  unfold header_invalid. rewrite !orb_false_iff, !negb_false_iff.
  rewrite !Z.eqb_eq, !Z.eqb_neq. tauto.
Qed.

Lemma header_invalid_true (h : DDSFileHeader) :
  header_invalid h = true
  <-> Size h <> 124 \/ PF_Size (PixelFormatDef h) <> 32
      \/ Width h = 0 \/ Height h = 0.
Proof.
  unfold header_invalid. rewrite !orb_true_iff, !negb_true_iff.
  rewrite !Z.eqb_eq, !Z.eqb_neq. tauto.
Qed.

Lemma header_inconsistent_false (h aFirstHeader : DDSFileHeader) :
  header_inconsistent h aFirstHeader = false <-> face_fits aFirstHeader h.
Proof.
  unfold header_inconsistent, face_fits.
  rewrite !orb_false_iff, !negb_false_iff, !Z.eqb_eq. tauto.
Qed.


Lemma face_sound_valid (buf : list byte) :
  face_sound buf -> header_invalid (face_header buf) = false.
Proof.
  intros (_ & _ & Hs & Hp & Hw & Hh & _). apply header_invalid_false. tauto.
Qed.

Lemma anInHeaders_report_side aSide h st :
  anInHeaders (report_side aSide h st) = anInHeaders st.
Proof. reflexivity. Qed.

Lemma aResFile_report_side aSide h st :
  aResFile (report_side aSide h st) = aResFile st.
Proof. reflexivity. Qed.

Lemma main_body_first env anOutput f st buf :
  in_data f = Some buf -> face_sound buf -> out_opens env = true ->
  main_body env anOutput 0 f st = Next (after_first buf st).
Proof.
  intros E Hs Ho. pose proof (face_sound_valid buf Hs) as Hv.
  destruct Hs as (Hm & Hlen & _ & _ & _ & _ & Hsq).
  rewrite (main_body_dds _ _ _ _ _ buf E Hm Hlen). cbv zeta.
  rewrite Hv. apply Z.eqb_eq in Hsq. rewrite Hsq. cbn [negb].
  unfold first_or_check. cbn [Nat.eqb]. rewrite Ho. reflexivity.
Qed.

Lemma main_body_first_no_open env anOutput f st buf :
  in_data f = Some buf -> face_sound buf -> out_opens env = false ->
  main_body env anOutput 0 f st
  = Stop (Return 1
            (say (MsgUnableToWrite anOutput)
               (set_aResHeader (result_header (face_header buf))
                  (report_side 0 (face_header buf)
                     (set_anInHeader 0 (face_header buf) st))))).
Proof.
  intros E Hs Ho. pose proof (face_sound_valid buf Hs) as Hv.
  destruct Hs as (Hm & Hlen & _ & _ & _ & _ & Hsq).
  rewrite (main_body_dds _ _ _ _ _ buf E Hm Hlen). cbv zeta.
  rewrite Hv. apply Z.eqb_eq in Hsq. rewrite Hsq. cbn [negb].
  unfold first_or_check. cbn [Nat.eqb]. rewrite Ho. reflexivity.
Qed.

Lemma nth_set_nth_other {A : Type} (l : list A) :
  forall i j x d, i <> j -> nth j (set_nth i x l) d = nth j l d.
Proof.
  induction l as [|y l IH]; intros [|i] [|j] x d Hij; cbn; try reflexivity.
  - contradiction.
  - apply IH. congruence.
Qed.

Lemma nth_set_nth_same {A : Type} (l : list A) :
  forall i x d, (i < length l)%nat -> nth i (set_nth i x l) d = x.
Proof.
  induction l as [|y l IH]; intros [|i] x d Hi; cbn in *; try lia.
  - reflexivity.
  - apply IH. lia.
Qed.

Lemma length_set_nth {A : Type} (l : list A) :
  forall i x, length (set_nth i x l) = length l.
Proof.
  induction l as [|y l IH]; intros [|i] x; cbn; try reflexivity.
  rewrite IH. reflexivity.
Qed.

Lemma main_body_other env anOutput aSide f st buf :
  aSide <> 0%nat ->
  in_data f = Some buf -> face_sound buf ->
  face_fits (nth 0 (anInHeaders st) zero_header) (face_header buf) ->
  main_body env anOutput aSide f st = Next (after_other aSide buf st).
Proof.
  intros Hk E Hs Hfit. pose proof (face_sound_valid buf Hs) as Hv.
  destruct Hs as (Hm & Hlen & _ & _ & _ & _ & Hsq).
  rewrite (main_body_dds _ _ _ _ _ buf E Hm Hlen). cbv zeta.
  rewrite Hv. apply Z.eqb_eq in Hsq. rewrite Hsq. cbn [negb].
  unfold first_or_check.
  destruct (Nat.eqb_spec aSide 0) as [->|_]; [contradiction|].
  rewrite anInHeaders_report_side. cbn [set_anInHeader anInHeaders].
  rewrite nth_set_nth_other by exact Hk.
  apply header_inconsistent_false in Hfit. rewrite Hfit. reflexivity.
Qed.

(** A side that lets the loop go on passed every test. *)
Lemma main_body_Next_inv env anOutput aSide f st st' :
  main_body env anOutput aSide f st = Next st' ->
  exists buf,
    in_data f = Some buf /\ face_sound buf
    /\ (aSide = 0%nat -> out_opens env = true /\ st' = after_first buf st)
    /\ (aSide <> 0%nat ->
        face_fits (nth 0 (anInHeaders st) zero_header) (face_header buf)
        /\ st' = after_other aSide buf st).
Proof.
  intros Hrun.
  destruct (in_data f) as [buf|] eqn:E;
    [| rewrite main_body_unreadable in Hrun by exact E; discriminate Hrun ].
  exists buf. split; [reflexivity|].
  destruct (le_lt_dec 4 (length buf)) as [H4|H4];
    [| rewrite (main_body_short _ _ _ _ _ buf E H4) in Hrun; discriminate Hrun ].
  destruct (list_eq_dec Byte.byte_eq_dec (firstn 4 buf) DDS_magic) as [Hm|Hm];
    [| rewrite (main_body_not_dds _ _ _ _ _ buf E H4 (or_introl Hm)) in Hrun;
       discriminate Hrun ].
  destruct (le_lt_dec 128 (length buf)) as [Hlen|Hlen];
    [| rewrite (main_body_not_dds _ _ _ _ _ buf E H4 (or_intror Hlen)) in Hrun;
       discriminate Hrun ].
  rewrite (main_body_dds _ _ _ _ _ buf E Hm Hlen) in Hrun. cbv zeta in Hrun.
  destruct (header_invalid (face_header buf)) eqn:Hv; [discriminate Hrun|].
  destruct (Z.eqb_spec (Width (face_header buf)) (Height (face_header buf)))
    as [Hsq|Hsq]; cbn [negb] in Hrun; [|discriminate Hrun].
  apply header_invalid_false in Hv. destruct Hv as (Hs & Hp & Hw & Hh).
  assert (Hsound : face_sound buf) by (unfold face_sound; tauto).
  split; [exact Hsound|]. split.
  - intros ->. unfold first_or_check in Hrun. cbn [Nat.eqb] in Hrun.
    destruct (out_opens env) eqn:Ho; [|discriminate Hrun].
    split; [reflexivity|]. injection Hrun as <-. reflexivity.
  - intros Hk. unfold first_or_check in Hrun.
    destruct (Nat.eqb_spec aSide 0) as [->|_]; [contradiction|].
    rewrite anInHeaders_report_side in Hrun.
    cbn [set_anInHeader anInHeaders] in Hrun.
    rewrite nth_set_nth_other in Hrun by exact Hk.
    destruct (header_inconsistent _ _) eqn:Hc in Hrun; [discriminate Hrun|].
    apply header_inconsistent_false in Hc.
    split; [exact Hc|]. injection Hrun as <-. reflexivity.
Qed.

(* ------------------------------------------------------------------ *)
(** ** The loop *)

Lemma main_loop_app env anOutput (pre rest : list InFile) :
  forall aSide st,
    main_loop env anOutput aSide (pre ++ rest) st
    = match main_loop env anOutput aSide pre st with
      | Stop o => Stop o
      | Next st' => main_loop env anOutput (aSide + length pre) rest st'
      end.
Proof.
  induction pre as [|f pre IH]; intros aSide st.
  - cbn [app main_loop length]. rewrite Nat.add_0_r. reflexivity.
  - cbn [app main_loop length].
    destruct (main_body env anOutput aSide f st) as [st'|o]; [|reflexivity].
    rewrite IH. rewrite Nat.add_succ_r. reflexivity.
Qed.

Lemma aResFile_after_other aSide buf st :
  aResFile (after_other aSide buf st)
  = option_map (fun o => o ++ face_payload buf) (aResFile st).
Proof.
  unfold after_other. cbv zeta. cbn [write aResFile].
  rewrite aResFile_report_side. reflexivity.
Qed.

Lemma first_header_after_other aSide buf st :
  aSide <> 0%nat ->
  nth 0 (anInHeaders (after_other aSide buf st)) zero_header
  = nth 0 (anInHeaders st) zero_header.
Proof.
  intros Hk. unfold after_other. cbv zeta. cbn [write anInHeaders].
  rewrite anInHeaders_report_side. cbn [set_anInHeader anInHeaders].
  apply nth_set_nth_other. exact Hk.
Qed.

Lemma aResFile_after_first buf st :
  aResFile (after_first buf st)
  = Some (DDS_magic ++ encode_header (result_header (face_header buf))
            ++ face_payload buf).
Proof.
  unfold after_first. cbv zeta. cbn [write open_out aResFile option_map].
  rewrite app_nil_l, <- app_assoc. reflexivity.
Qed.

Lemma first_header_after_first buf st :
  (0 < length (anInHeaders st))%nat ->
  nth 0 (anInHeaders (after_first buf st)) zero_header = face_header buf.
Proof.
  intros Hlen. unfold after_first. cbv zeta.
  cbn [write open_out set_aResHeader anInHeaders].
  rewrite anInHeaders_report_side. cbn [set_anInHeader anInHeaders].
  apply nth_set_nth_same. exact Hlen.
Qed.

Lemma cerr_after_other aSide buf st :
  face_sound buf ->
  cerr (after_other aSide buf st) = cerr st ++ side_report aSide (face_header buf).
Proof.
  intros _. reflexivity.
Qed.

Lemma cerr_after_first buf st :
  face_sound buf ->
  cerr (after_first buf st) = cerr st ++ side_report 0 (face_header buf).
Proof.
  intros _. reflexivity.
Qed.

(** The sides after the first, when all are sound and fit the first. *)
Lemma main_loop_others env anOutput aFirstHeader (bufs : list (list byte)) :
  forall anInput aSide st,
    aSide <> 0%nat ->
    map in_data anInput = map Some bufs ->
    Forall face_sound bufs ->
    Forall (fun b => face_fits aFirstHeader (face_header b)) bufs ->
    nth 0 (anInHeaders st) zero_header = aFirstHeader ->
    exists st',
      main_loop env anOutput aSide anInput st = Next st'
      /\ aResFile st'
         = option_map (fun o => o ++ concat (map face_payload bufs)) (aResFile st)
      /\ nth 0 (anInHeaders st') zero_header = aFirstHeader
      /\ cerr st' = cerr st ++ run_report aSide bufs.
Proof.
  induction bufs as [|b bufs IH]; intros anInput aSide st Hk Hmap Hs Hf H0.
  - destruct anInput; [|discriminate Hmap]. exists st.
    cbn [main_loop map concat run_report]. rewrite app_nil_r.
    repeat split; [|exact H0].
    destruct (aResFile st); cbn; [rewrite app_nil_r|]; reflexivity.
  - destruct anInput as [|f anInput]; [discriminate Hmap|].
    cbn [map] in Hmap. injection Hmap as Ef Hmap.
    inversion Hs as [|? ? Hsb Hs']; subst. inversion Hf as [|? ? Hfb Hf']; subst.
    cbn [main_loop].
    rewrite (main_body_other _ _ _ _ _ b Hk Ef Hsb Hfb).
    destruct (IH anInput (S aSide) (after_other aSide b st))
      as (st' & Hl & Ho & Hh & Hc);
      try assumption; try lia.
    { apply first_header_after_other. exact Hk. }
    exists st'. split; [exact Hl|]. split; [|split].
    + rewrite Ho, aResFile_after_other. cbn [map concat].
      destruct (aResFile st); cbn [option_map]; [|reflexivity].
      rewrite <- app_assoc. reflexivity.
    + exact Hh.
    + rewrite Hc, cerr_after_other by exact Hsb.
      cbn [run_report]. rewrite <- app_assoc. reflexivity.
Qed.

(* ------------------------------------------------------------------ *)
(** ** The bytes of the result header *)

Lemma firstn_words_of_bytes (k : nat) :
  forall bs, firstn k (words_of_bytes bs) = words_of_bytes (firstn (4 * k) bs).
Proof.
  induction k as [|k IH]; intros bs; [reflexivity|].
  replace (4 * S k)%nat with (S (S (S (S (4 * k))))) by lia.
  destruct bs as [|b0 [|b1 [|b2 [|b3 rest]]]]; try reflexivity.
  cbn [words_of_bytes firstn]. rewrite IH. reflexivity.
Qed.

Lemma skipn_words_of_bytes (k : nat) :
  forall bs, skipn k (words_of_bytes bs) = words_of_bytes (skipn (4 * k) bs).
Proof.
  induction k as [|k IH]; intros bs; [reflexivity|].
  replace (4 * S k)%nat with (S (S (S (S (4 * k))))) by lia.
  destruct bs as [|b0 [|b1 [|b2 [|b3 rest]]]];
    cbn [words_of_bytes skipn]; try reflexivity.
  apply IH.
Qed.

Lemma words_of_set_Caps2 (ws : list Z) (v : Z) :
  length ws = 31%nat ->
  words_of_header (set_Caps2 (header_of_words ws) v)
  = firstn 27 ws ++ v :: skipn 28 ws.
Proof.
  intros Hlen.
  do 31 (destruct ws as [|? ws]; [discriminate Hlen|]).
  destruct ws; [reflexivity | discriminate Hlen].
Qed.

(** The result header differs from the first side's header bytes in the
    four bytes of [Caps2] only (offset 108 of the struct, 112 of the file). *)
Lemma encode_result_header_bytes (buf : list byte) :
  (128 <= length buf)%nat ->
  encode_header (result_header (face_header buf))
  = firstn 108 (skipn 4 buf)
    ++ bytes_of_le32 (Z.lor (Caps2 (face_header buf)) DDSCompleteCubemap)
    ++ firstn 12 (skipn 116 buf).
Proof.
  intros Hlen.
  unfold encode_header, result_header, face_header, decode_header.
  set (hb := firstn sizeof_DDSFileHeader (skipn 4 buf)).
  assert (Hhb : length hb = (4 * 31)%nat).
  { unfold hb. rewrite length_firstn, length_skipn. unfold sizeof_DDSFileHeader. lia. }
  rewrite words_of_set_Caps2 by (apply (length_words_of_bytes 31); exact Hhb).
  unfold bytes_of_words. rewrite flat_map_app. cbn [flat_map].
  fold (bytes_of_words (firstn 27 (words_of_bytes hb))).
  fold (bytes_of_words (skipn 28 (words_of_bytes hb))).
  rewrite firstn_words_of_bytes, skipn_words_of_bytes.
  rewrite (bytes_of_words_of_bytes 27)
    by (rewrite length_firstn; lia).
  rewrite (bytes_of_words_of_bytes 3)
    by (rewrite length_skipn; lia).
  unfold hb, sizeof_DDSFileHeader.
  rewrite firstn_firstn. change (Nat.min (4 * 27) 124) with 108%nat.
  rewrite skipn_firstn_comm, skipn_skipn.
  change (124 - 4 * 28)%nat with 12%nat. change (4 * 28 + 4)%nat with 116%nat.
  reflexivity.
Qed.

Lemma complete_after_lor (c : Z) :
  Z.land (Z.lor c DDSCompleteCubemap) DDSCompleteCubemap = DDSCompleteCubemap.
Proof.
  apply Z.bits_inj'. intros n _.
  rewrite Z.land_spec, Z.lor_spec.
  destruct (Z.testbit c n), (Z.testbit DDSCompleteCubemap n); reflexivity.
Qed.

Lemma IscompleteCubemap_result_header (h : DDSFileHeader) :
  IscompleteCubemap (result_header h) = true.
Proof.
  unfold IscompleteCubemap, result_header. cbn [set_Caps2 Caps2].
  rewrite complete_after_lor. reflexivity.
Qed.

Lemma result_header_wf (h : DDSFileHeader) :
  header_wf h -> header_wf (result_header h).
Proof.
  intros Hwf. apply set_Caps2_wf; [exact Hwf|].
  apply lor_uint32.
  - apply (header_wf_fields h Hwf).
  - unfold uint32, DDSCompleteCubemap. lia.
Qed.

(* ------------------------------------------------------------------ *)
(** ** Whole runs *)

(** The loop never leaves [main] with status 0. *)
Lemma main_body_Stop_code env anOutput aSide f st code st' :
  main_body env anOutput aSide f st = Stop (Return code st') -> code = 1.
Proof.
  intros H.
  destruct (in_data f) as [buf|] eqn:E;
    [| rewrite main_body_unreadable in H by exact E; congruence ].
  destruct (le_lt_dec 4 (length buf)) as [H4|H4];
    [| rewrite (main_body_short _ _ _ _ _ buf E H4) in H; discriminate H ].
  destruct (list_eq_dec Byte.byte_eq_dec (firstn 4 buf) DDS_magic) as [Hm|Hm];
    [| rewrite (main_body_not_dds _ _ _ _ _ buf E H4 (or_introl Hm)) in H;
       congruence ].
  destruct (le_lt_dec 128 (length buf)) as [Hlen|Hlen];
    [| rewrite (main_body_not_dds _ _ _ _ _ buf E H4 (or_intror Hlen)) in H;
       congruence ].
  rewrite (main_body_dds _ _ _ _ _ buf E Hm Hlen) in H. cbv zeta in H.
  unfold first_or_check in H.
  destruct (header_invalid (face_header buf)); [congruence|].
  destruct (negb (Width (face_header buf) =? Height (face_header buf)));
    [congruence|].
  destruct (Nat.eqb aSide 0).
  - destruct (out_opens env); [discriminate H | congruence].
  - destruct (header_inconsistent _ _); [congruence | discriminate H].
Qed.

Lemma main_loop_Stop_code env anOutput (anInput : list InFile) :
  forall aSide st code st',
    main_loop env anOutput aSide anInput st = Stop (Return code st') -> code = 1.
Proof.
  induction anInput as [|f anInput IH]; intros aSide st code st' H;
    cbn [main_loop] in H; [discriminate H|].
  destruct (main_body env anOutput aSide f st) as [st1|o] eqn:E.
  - eapply IH. exact H.
  - injection H as ->. eapply main_body_Stop_code. exact E.
Qed.

Lemma main_loop_others_inv env anOutput (anInput : list InFile) :
  forall aSide st st',
    aSide <> 0%nat ->
    main_loop env anOutput aSide anInput st = Next st' ->
    exists bufs,
      map in_data anInput = map Some bufs
      /\ Forall face_sound bufs
      /\ Forall (fun b => face_fits (nth 0 (anInHeaders st) zero_header)
                            (face_header b)) bufs.
Proof.
  induction anInput as [|f anInput IH]; intros aSide st st' Hk H.
  - exists []. repeat split; constructor.
  - cbn [main_loop] in H.
    destruct (main_body env anOutput aSide f st) as [st1|o] eqn:E;
      [|discriminate H].
    apply main_body_Next_inv in E.
    destruct E as (b & Eb & Hs & _ & Hother).
    destruct (Hother Hk) as (Hfit & ->).
    apply IH in H; [|lia]. destruct H as (bufs & Hmap & Hss & Hfs).
    rewrite first_header_after_other in Hfs by exact Hk.
    exists (b :: bufs). cbn [map]. rewrite Eb, Hmap.
    repeat split; constructor; assumption.
Qed.

Lemma face_fits_refl (h : DDSFileHeader) : face_fits h h.
Proof. repeat split. Qed.

Lemma main_loop_sound env anOutput f anInput b0 bufs :
  out_opens env = true ->
  in_data f = Some b0 ->
  map in_data anInput = map Some bufs ->
  Forall face_sound (b0 :: bufs) ->
  Forall (fun b => face_fits (face_header b0) (face_header b)) bufs ->
  exists st,
    main_loop env anOutput 0 (f :: anInput) initial_state = Next st
    /\ aResFile st = Some (result_file b0 bufs)
    /\ cerr st = run_report 0 (b0 :: bufs).
Proof.
  intros Ho E0 Hmap Hs Hf.
  inversion Hs as [|? ? Hs0 Hs']; subst.
  cbn [main_loop]. rewrite (main_body_first _ _ _ _ b0 E0 Hs0 Ho).
  destruct (main_loop_others env anOutput (face_header b0) bufs anInput 1%nat
              (after_first b0 initial_state)) as (st & Hl & Hout & _ & Hc);
    try assumption; try lia.
  { apply first_header_after_first. cbn. lia. }
  exists st. split; [exact Hl|]. split.
  - rewrite Hout, aResFile_after_first. cbn [option_map].
    unfold result_file. cbn [map concat]. rewrite <- !app_assoc. reflexivity.
  - rewrite Hc, cerr_after_first by exact Hs0. reflexivity.
Qed.

(** A run that ends with status 0 read six sound sides that fit the first,
    and left the result file of [result_file]. *)
Lemma main_Return_0_inv env anInput anOutput st :
  main env anInput anOutput = Return 0 st ->
  exists b0 bufs,
    map in_data anInput = map Some (b0 :: bufs)
    /\ length anInput = 6%nat
    /\ Forall face_sound (b0 :: bufs)
    /\ Forall (fun b => face_fits (face_header b0) (face_header b)) bufs
    /\ aResFile st = Some (result_file b0 bufs).
Proof.
  unfold main. intros H.
  destruct (Nat.eqb_spec (length anInput) 6) as [Hlen|Hlen];
    cbn [negb orb] in H; [|discriminate H].
  destruct (string_empty anOutput); [discriminate H|].
  destruct (main_loop env anOutput 0 anInput initial_state) as [st1|o] eqn:E.
  - destruct (out_good env); [|discriminate H]. injection H as ->.
    destruct anInput as [|f anInput]; [discriminate Hlen|].
    cbn [main_loop] in E.
    destruct (main_body env anOutput 0 f initial_state) as [st0|o] eqn:E0;
      [|discriminate E].
    apply main_body_Next_inv in E0.
    destruct E0 as (b0 & Eb & Hs0 & Hfirst & _).
    destruct (Hfirst eq_refl) as (Ho & ->).
    pose proof E as E'.
    apply main_loop_others_inv in E'; [|lia].
    destruct E' as (bufs & Hmap & Hss & Hfs).
    rewrite first_header_after_first in Hfs by (cbn; lia).
    exists b0, bufs. cbn [map]. rewrite Eb, Hmap.
    repeat split; try assumption; [constructor; assumption|].
    destruct (main_loop_sound env anOutput f anInput b0 bufs Ho Eb Hmap
                (Forall_cons _ Hs0 Hss) Hfs) as (st' & Hl & Hout & _).
    cbn [main_loop] in Hl.
    rewrite (main_body_first _ _ _ _ b0 Eb Hs0 Ho) in Hl.
    rewrite E in Hl. injection Hl as <-. exact Hout.
  - subst o. apply main_loop_Stop_code in E. discriminate E.
Qed.

(* ================================================================== *)
(** * The claims *)

Lemma length_result_file (b0 : list byte) (bufs : list (list byte)) :
  (128 <= length b0)%nat ->
  length (result_file b0 bufs)
  = (128 + list_sum (map (fun b => length b - 128) (b0 :: bufs)))%nat.
Proof.
  intros Hlen. unfold result_file.
  rewrite !length_app, length_concat, map_map.
  rewrite length_encode_header
    by (apply result_header_wf, face_header_wf; exact Hlen).
  change (length DDS_magic) with 4%nat.
  replace (map (fun x => length (face_payload x)) (b0 :: bufs))
    with (map (fun b => (length b - 128)%nat) (b0 :: bufs)).
  - lia.
  - apply map_ext. intros b. unfold face_payload. rewrite length_skipn. reflexivity.
Qed.

(** C1. On six readable inputs that are valid DDS files (magic present, at
    least 128 bytes, header size 124, pixel format size 32, non-zero
    dimensions), square, and equal to the first in width, height and FourCC,
    with an output stream that opens and stays good, the run ends with status
    0 and the result file is the magic, the 124 bytes of the first header
    with [DDSCompleteCubemap] or-ed into [Caps2] and nothing else changed,
    and the bytes of each input from offset 128 on, in input order; its
    length is 128 plus the sum of the payload lengths. *)
Theorem C1_result_file_bytes env anInput anOutput b0 bufs :
  out_opens env = true -> out_good env = true ->
  string_empty anOutput = false ->
  length anInput = 6%nat ->
  map in_data anInput = map Some (b0 :: bufs) ->
  Forall face_sound (b0 :: bufs) ->
  Forall (fun b => face_fits (face_header b0) (face_header b)) bufs ->
  exists st out,
    main env anInput anOutput = Return 0 st
    /\ aResFile st = Some out
    /\ out = DDS_magic
             ++ encode_header
                  (set_Caps2 (face_header b0)
                     (Z.lor (Caps2 (face_header b0)) DDSCompleteCubemap))
             ++ concat (map (skipn 128) (b0 :: bufs))
    /\ decode_header (skipn 4 out)
       = set_Caps2 (face_header b0)
           (Z.lor (Caps2 (face_header b0)) DDSCompleteCubemap)
    /\ Z.land (Caps2 (decode_header (skipn 4 out))) DDSCompleteCubemap
       = DDSCompleteCubemap
    /\ firstn 124 (skipn 4 out)
       = firstn 108 (skipn 4 b0)
         ++ bytes_of_le32 (Z.lor (Caps2 (face_header b0)) DDSCompleteCubemap)
         ++ firstn 12 (skipn 116 b0)
    /\ skipn 128 out = concat (map (skipn 128) (b0 :: bufs))
    /\ length out
       = (128 + list_sum (map (fun b => length b - 128) (b0 :: bufs)))%nat.
Proof.
  intros Ho Hg Hout Hlen Hmap Hs Hf.
  destruct anInput as [|f anInput]; [discriminate Hlen|].
  cbn [map] in Hmap. injection Hmap as E0 Hmap.
  destruct (main_loop_sound env anOutput f anInput b0 bufs Ho E0 Hmap Hs Hf)
    as (st & Hl & Hfile & _).
  assert (H128 : (128 <= length b0)%nat).
  { inversion Hs as [|? ? Hs0 _]. apply Hs0. }
  pose proof (result_header_wf _ (face_header_wf b0 H128)) as Hwf.
  pose proof (length_encode_header _ (proj2 Hwf)) as Henc.
  exists st, (result_file b0 bufs).
  split.
  { unfold main. rewrite Hlen, Hout, Hl, Hg. reflexivity. }
  split; [exact Hfile|].
  split; [reflexivity|].
  assert (Hdec : decode_header (skipn 4 (result_file b0 bufs))
                 = result_header (face_header b0)).
  { unfold result_file. cbn [DDS_magic app skipn].
    apply decode_encode_header. exact Hwf. }
  split; [exact Hdec|].
  split.
  { rewrite Hdec. unfold result_header. cbn [set_Caps2 Caps2].
    apply complete_after_lor. }
  split.
  { unfold result_file. cbn [DDS_magic app skipn].
    rewrite firstn_app, Henc. change (124 - 124)%nat with 0%nat.
    rewrite firstn_O, app_nil_r, firstn_all2 by (rewrite Henc; apply Nat.le_refl).
    apply encode_result_header_bytes. exact H128. }
  split.
  { unfold result_file.
    rewrite app_assoc, skipn_app.
    rewrite skipn_all2 by (rewrite length_app, Henc; cbn; lia).
    rewrite length_app, Henc. reflexivity. }
  apply length_result_file. exact H128.
Qed.

Lemma C1_result_file_bytes_witness :
  exists st out,
    main sample_env sample_input "result.dds" = Return 0 st
    /\ aResFile st = Some out
    /\ length out = 136%nat
    /\ skipn 128 out = [x01; x02; x03; x04; x05; x06; x07; x08].
Proof.
  destruct (C1_result_file_bytes sample_env sample_input "result.dds"
              (hd [] sample_bufs) (tl sample_bufs))
    as (st & out & Hrun & Hfile & _ & _ & _ & _ & Hpay & Hlen).
  - reflexivity.
  - reflexivity.
  - reflexivity.
  - reflexivity.
  - reflexivity.
  - repeat (apply Forall_cons; [solve_face_sound|]). apply Forall_nil.
  - repeat (apply Forall_cons; [solve_face_fits|]). apply Forall_nil.
  - exists st, out. repeat split; assumption.
Defined.

(** C3. Whenever a run ends with status 0, the header decoded from the
    result file (the 124 bytes after the magic) satisfies
    [IscompleteCubemap], whatever [Caps2] the six inputs carried. *)
Theorem C3_result_header_is_complete env anInput anOutput st :
  main env anInput anOutput = Return 0 st ->
  exists out,
    aResFile st = Some out
    /\ firstn 4 out = DDS_magic
    /\ IscompleteCubemap (decode_header (skipn 4 out)) = true.
Proof.
  intros Hrun. apply main_Return_0_inv in Hrun.
  destruct Hrun as (b0 & bufs & _ & _ & Hs & _ & Hfile).
  exists (result_file b0 bufs). split; [exact Hfile|]. split; [reflexivity|].
  assert (H128 : (128 <= length b0)%nat).
  { inversion Hs as [|? ? Hs0 _]. apply Hs0. }
  unfold result_file. cbn [DDS_magic app skipn].
  rewrite decode_encode_header
    by (apply result_header_wf, face_header_wf; exact H128).
  apply IscompleteCubemap_result_header.
Qed.

Lemma C3_result_header_is_complete_witness :
  forallb (fun b => negb (IscompleteCubemap (face_header b))) sample_bufs = true
  /\ exists st out,
       main sample_env sample_input "result.dds" = Return 0 st
       /\ aResFile st = Some out
       /\ IscompleteCubemap (decode_header (skipn 4 out)) = true.
Proof.
  split; [vm_compute; reflexivity|].
  destruct (main sample_env sample_input "result.dds") as [code st| |] eqn:E;
    try (vm_compute in E; discriminate E).
  destruct code as [|p|p]; try (vm_compute in E; discriminate E).
  destruct (C3_result_header_is_complete sample_env sample_input "result.dds" st E)
    as (out & Hfile & _ & Hc).
  exists st, out. repeat split; assumption.
Defined.

(* ------------------------------------------------------------------ *)
(** ** Runs that stop at a side *)

(** When the sides before [f] let the loop go on, the run ends the way the
    body ends on [f]. *)
Lemma main_stops_at env anOutput pre f rest st o :
  length (pre ++ f :: rest) = 6%nat ->
  string_empty anOutput = false ->
  main_loop env anOutput 0 pre initial_state = Next st ->
  main_body env anOutput (length pre) f st = Stop o ->
  main env (pre ++ f :: rest) anOutput = o.
Proof.
  intros Hlen Hout Hpre Hbody. unfold main.
  rewrite Hlen, Hout. cbn [Nat.eqb negb orb].
  rewrite main_loop_app, Hpre. cbn [main_loop plus].
  rewrite Hbody. reflexivity.
Qed.

Lemma failure_say (m : Msg) (st : State) :
  failure (Return 1 (say m st)) = error_kind m.
Proof.
  unfold failure. cbn [say cerr].
  rewrite map_app. cbn [map]. rewrite last_last. reflexivity.
Qed.

Lemma last_msg_say (m : Msg) (st : State) :
  last_msg (Return 1 (say m st)) = Some m.
Proof.
  unfold last_msg. cbn [final_state say cerr].
  rewrite map_app. cbn [map]. rewrite last_last. reflexivity.
Qed.


Lemma aResFile_say m st : aResFile (say m st) = aResFile st.
Proof. reflexivity. Qed.

Lemma aResFile_set_anInHeader aSide h st :
  aResFile (set_anInHeader aSide h st) = aResFile st.
Proof. reflexivity. Qed.

(** A stream that was never opened: the result file does not exist. *)
Lemma aResFile_initial : aResFile initial_state = None.
Proof. reflexivity. Qed.

(* ------------------------------------------------------------------ *)
(** ** The cube map flag *)

Lemma testbit_DDSCompleteCubemap (n : Z) :
  Z.testbit DDSCompleteCubemap n = true <-> 9 <= n <= 15.
Proof.
  split.
  - intros H.
    destruct (Z.ltb_spec n 0) as [Hneg|Hpos];
      [rewrite Z.testbit_neg_r in H by exact Hneg; discriminate H|].
    destruct (Z.ltb_spec 15 n) as [Hbig|Hsmall].
    + rewrite Z.bits_above_log2 in H; [discriminate H | unfold DDSCompleteCubemap; lia |].
      change (Z.log2 DDSCompleteCubemap) with 15. exact Hbig.
    + assert (Hn : n = 0 \/ n = 1 \/ n = 2 \/ n = 3 \/ n = 4 \/ n = 5 \/ n = 6
                   \/ n = 7 \/ n = 8 \/ 9 <= n <= 15) by lia.
      repeat (destruct Hn as [->|Hn]; [discriminate H|]). exact Hn.
  - intros Hn.
    assert (Hc : n = 9 \/ n = 10 \/ n = 11 \/ n = 12 \/ n = 13 \/ n = 14 \/ n = 15)
      by lia.
    repeat (destruct Hc as [->|Hc]; [reflexivity|]). subst n. reflexivity.
Qed.

(** What the predicate tests: some bit among bits 9 to 15 of [Caps2]. *)
Lemma IscompleteCubemap_some_bit (h : DDSFileHeader) :
  IscompleteCubemap h = true
  <-> exists n, 9 <= n <= 15 /\ Z.testbit (Caps2 h) n = true.
Proof.
  unfold IscompleteCubemap. rewrite negb_true_iff, Z.eqb_neq. split.
  - intros Hne.
    assert (Hn : exists n, Z.testbit (Z.land (Caps2 h) DDSCompleteCubemap) n = true).
    { destruct (Z.testbit (Z.land (Caps2 h) DDSCompleteCubemap) 9) eqn:B9; [eauto|].
      destruct (Z.testbit (Z.land (Caps2 h) DDSCompleteCubemap) 10) eqn:B10; [eauto|].
      destruct (Z.testbit (Z.land (Caps2 h) DDSCompleteCubemap) 11) eqn:B11; [eauto|].
      destruct (Z.testbit (Z.land (Caps2 h) DDSCompleteCubemap) 12) eqn:B12; [eauto|].
      destruct (Z.testbit (Z.land (Caps2 h) DDSCompleteCubemap) 13) eqn:B13; [eauto|].
      destruct (Z.testbit (Z.land (Caps2 h) DDSCompleteCubemap) 14) eqn:B14; [eauto|].
      destruct (Z.testbit (Z.land (Caps2 h) DDSCompleteCubemap) 15) eqn:B15; [eauto|].
      exfalso. apply Hne. apply Z.bits_inj'. intros n _.
      rewrite Z.bits_0.
      destruct (Z.testbit (Z.land (Caps2 h) DDSCompleteCubemap) n) eqn:Bn;
        [|reflexivity].
      pose proof Bn as Bm. rewrite Z.land_spec, andb_true_iff in Bm.
      destruct Bm as [_ Bm]. apply testbit_DDSCompleteCubemap in Bm.
      assert (Hc : n = 9 \/ n = 10 \/ n = 11 \/ n = 12 \/ n = 13 \/ n = 14 \/ n = 15)
        by lia.
      destruct Hc as [->|[->|[->|[->|[->|[->| ->]]]]]]; congruence. }
    destruct Hn as (n & Bn). rewrite Z.land_spec, andb_true_iff in Bn.
    destruct Bn as [Bc Bm]. apply testbit_DDSCompleteCubemap in Bm.
    exists n. split; assumption.
  - intros (n & Hn & Bc) E.
    assert (Bn : Z.testbit (Z.land (Caps2 h) DDSCompleteCubemap) n = true).
    { rewrite Z.land_spec, Bc. apply testbit_DDSCompleteCubemap. exact Hn. }
    rewrite E, Z.bits_0 in Bn. discriminate Bn.
Qed.

(** C2. [IscompleteCubemap] answers true on a header whose [Caps2] is 0x600:
    bits 9 and 10 are set, the other five bits of [DDSCompleteCubemap]
    (0xFE00) are not, so the pattern is not set in [Caps2]; the predicate
    tests whether any bit of the pattern is set, not whether the pattern
    is. *)
Theorem C2_one_face_reports_complete :
  IscompleteCubemap one_face_header = true
  /\ Z.land (Caps2 one_face_header) DDSCompleteCubemap <> DDSCompleteCubemap
  /\ Z.testbit (Caps2 one_face_header) 15 = false.
Proof.
  repeat split. vm_compute. discriminate.
Qed.

(* ------------------------------------------------------------------ *)
(** ** C4 *)

(** C4. For all 32-bit dimensions the loop ends and its count is the number
    of sizes in the chain obtained from the larger dimension D by repeated
    integer halving, which for D >= 1 ends with 1; the count is
    1 + floor(log2 D) for D >= 1, so 1 + k when D = 2^k; it is 9 for
    256x256 and 1 for 1x1. *)
Theorem C4_expectedMipCount (aWidth aHeight : Z) :
  uint32 aWidth -> uint32 aHeight ->
  expectedMipCount aWidth aHeight
  = Some (spec_mip_count (Z.max aWidth aHeight))
  /\ (1 <= Z.max aWidth aHeight ->
      last (spec_mip_chain (Z.max aWidth aHeight)) 0 = 1
      /\ expectedMipCount aWidth aHeight
         = Some (1 + Z.log2 (Z.max aWidth aHeight)))
  /\ (forall k, 0 <= k -> Z.max aWidth aHeight = 2 ^ k ->
      expectedMipCount aWidth aHeight = Some (1 + k))
  /\ expectedMipCount 256 256 = Some 9
  /\ expectedMipCount 1 1 = Some 1.
Proof.
  intros Hw Hh.
  assert (Hm : 0 <= Z.max aWidth aHeight) by (unfold uint32 in *; lia).
  pose proof (expectedMipCount_log2 aWidth aHeight Hw Hh) as Hlog.
  split; [rewrite spec_mip_count_log2 by exact Hm; exact Hlog|].
  split.
  { intros H1. split; [|exact Hlog].
    unfold spec_mip_chain. apply last_spec_mip_chain_from; [exact H1|].
    apply log2_fits. exact Hm. }
  split.
  { intros k Hk Hpow. rewrite Hlog, Hpow, Z.log2_pow2 by exact Hk. reflexivity. }
  split; reflexivity.
Qed.

Lemma C4_expectedMipCount_witness :
  expectedMipCount 100 256 = Some (spec_mip_count 256)
  /\ spec_mip_chain 256 = [256; 128; 64; 32; 16; 8; 4; 2; 1]
  /\ expectedMipCount 100 256 = Some 9
  /\ expectedMipCount 100 7 = Some 7.
Proof.
  assert (H100 : uint32 100) by (unfold uint32; lia).
  assert (H256 : uint32 256) by (unfold uint32; lia).
  destruct (C4_expectedMipCount 100 256 H100 H256) as (Hspec & _ & Hpow & _).
  split; [exact Hspec|]. split; [reflexivity|].
  split; [apply (Hpow 8); [lia | reflexivity] | reflexivity].
Defined.

(* ------------------------------------------------------------------ *)
(** ** C5: the header test *)

(** C5. When the run arrives at a side whose file starts with the magic and
    has at least 128 bytes, and the header read from it declares a size
    other than 124, a pixel format size other than 32, a zero width or a
    zero height, the run ends with status 1 and the message that the file
    is not valid DDS (InvalidHeaderError); a header that passes the four
    tests passes the header test, and the body does not stop on that side
    with InvalidHeaderError. *)
Theorem C5_invalid_header env anOutput pre f rest st buf :
  length (pre ++ f :: rest) = 6%nat ->
  string_empty anOutput = false ->
  main_loop env anOutput 0 pre initial_state = Next st ->
  in_data f = Some buf ->
  firstn 4 buf = DDS_magic ->
  (128 <= length buf)%nat ->
  (Size (face_header buf) <> 124
   \/ PF_Size (PixelFormatDef (face_header buf)) <> 32
   \/ Width (face_header buf) = 0
   \/ Height (face_header buf) = 0 ->
   main env (pre ++ f :: rest) anOutput
   = Return 1 (say (MsgNotValidDDS (in_path f))
                 (set_anInHeader (length pre) (face_header buf) st))
   /\ failure (main env (pre ++ f :: rest) anOutput) = Some InvalidHeaderError
   /\ aResFile (final_state (main env (pre ++ f :: rest) anOutput)) = aResFile st)
  /\ (Size (face_header buf) = 124
      /\ PF_Size (PixelFormatDef (face_header buf)) = 32
      /\ Width (face_header buf) <> 0
      /\ Height (face_header buf) <> 0 ->
      header_invalid (face_header buf) = false
      /\ forall o, main_body env anOutput (length pre) f st = Stop o ->
                   failure o <> Some InvalidHeaderError).
Proof.
  intros Hlen Hout Hpre E Hm H128.
  pose proof (main_body_dds env anOutput (length pre) f st buf E Hm H128) as Hbody.
  cbv zeta in Hbody. split.
  - intros Hbad. apply header_invalid_true in Hbad. rewrite Hbad in Hbody.
    rewrite (main_stops_at _ _ _ _ _ _ _ Hlen Hout Hpre Hbody).
    rewrite failure_say. repeat split.
  - intros Hgood. apply header_invalid_false in Hgood.
    split; [exact Hgood|]. rewrite Hgood in Hbody. intros o Ho.
    rewrite Hbody in Ho. unfold first_or_check in Ho.
    destruct (negb (Width (face_header buf) =? Height (face_header buf))).
    { injection Ho as <-. rewrite failure_say. discriminate. }
    destruct (Nat.eqb (length pre) 0).
    + destruct (out_opens env); [discriminate Ho|].
      injection Ho as <-. rewrite failure_say. discriminate.
    + destruct (header_inconsistent _ _); [|discriminate Ho].
      injection Ho as <-. rewrite failure_say. discriminate.
Qed.

Lemma C5_invalid_header_witness :
  failure (main sample_env
             (firstn 3 sample_input ++ mkInFile "NY.dds" (Some bad_size_buf)
                :: skipn 4 sample_input)
             "result.dds")
  = Some InvalidHeaderError
  /\ header_invalid (face_header (hd [] sample_bufs)) = false.
Proof.
  destruct (main_loop sample_env "result.dds" 0 (firstn 3 sample_input)
              initial_state) as [st|o] eqn:Hpre;
    [|vm_compute in Hpre; discriminate Hpre].
  split.
  - destruct (C5_invalid_header sample_env "result.dds" (firstn 3 sample_input)
                (mkInFile "NY.dds" (Some bad_size_buf)) (skipn 4 sample_input)
                st bad_size_buf)
      as [Hbad _].
    + reflexivity.
    + reflexivity.
    + exact Hpre.
    + reflexivity.
    + reflexivity.
    + apply Nat.leb_le. reflexivity.
    + apply Hbad. left. vm_compute. discriminate.
  - destruct (C5_invalid_header sample_env "result.dds" []
                (hd (mkInFile "x" None) sample_input) (tl sample_input)
                initial_state (hd [] sample_bufs))
      as [_ Hgood].
    + reflexivity.
    + reflexivity.
    + reflexivity.
    + reflexivity.
    + reflexivity.
    + apply Nat.leb_le. reflexivity.
    + apply Hgood. vm_compute. repeat split; discriminate.
Defined.

(* ------------------------------------------------------------------ *)
(** ** C6 and C10: the magic test and the size test *)

(** For a file of four bytes or more the test of line 118 does what it is
    there for: without the magic, or under 128 bytes, the run stops with the
    message that the file is not DDS, and the result file is as the earlier
    sides left it (not created when the side is the first). *)
Lemma not_dds_in_bounds env anOutput pre f rest st buf :
  length (pre ++ f :: rest) = 6%nat ->
  string_empty anOutput = false ->
  main_loop env anOutput 0 pre initial_state = Next st ->
  in_data f = Some buf ->
  (4 <= length buf)%nat ->
  firstn 4 buf <> DDS_magic \/ (length buf < 128)%nat ->
  main env (pre ++ f :: rest) anOutput
  = Return 1 (say (MsgNotDDS (in_path f)) st)
  /\ failure (main env (pre ++ f :: rest) anOutput) = Some NotDdsError
  /\ aResFile (final_state (main env (pre ++ f :: rest) anOutput)) = aResFile st
  /\ (pre = [] ->
      aResFile (final_state (main env (pre ++ f :: rest) anOutput)) = None).
Proof.
  intros Hlen Hout Hpre E H4 Hbad.
  pose proof (main_body_not_dds env anOutput (length pre) f st buf E H4 Hbad)
    as Hbody.
  rewrite (main_stops_at _ _ _ _ _ _ _ Hlen Hout Hpre Hbody).
  rewrite failure_say. repeat split.
  intros ->. cbn [main_loop] in Hpre. injection Hpre as <-. reflexivity.
Qed.

(** C6. On a first input file of zero bytes (shorter than 128 bytes, so the
    claim asks for NotDdsError) the run does not end with the message that
    the file is not DDS: [memcmp] reads four bytes of the empty buffer
    before the size is looked at, and the run leaves the defined behaviour
    of the program with nothing printed. *)
Theorem C6_empty_first_file_out_of_bounds :
  main sample_env empty_first_input "result.dds" = OutOfBounds initial_state
  /\ failure (main sample_env empty_first_input "result.dds") = None
  /\ cerr (final_state (main sample_env empty_first_input "result.dds")) = [].
Proof.
  repeat split.
Qed.

(** C10. In the body of the loop the four bytes of the magic are compared
    before the size is tested against 128: on a buffer of at least four
    bytes every index the comparison reads is inside the buffer, and the
    body does not end out of bounds; on a buffer of fewer than four bytes
    the comparison reads outside the buffer, and the body ends there,
    where a size test made first would have answered that the file is
    not DDS. *)
Theorem C10_magic_compared_before_size env anOutput aSide f st buf :
  in_data f = Some buf ->
  ((4 <= length buf)%nat ->
   read_bytes buf 0 4 = Some (firstn 4 buf)
   /\ (exists c, memcmp buf DDS_magic 4 = Some c)
   /\ forall st', main_body env anOutput aSide f st <> Stop (OutOfBounds st'))
  /\ ((length buf < 4)%nat ->
      read_bytes buf 0 4 = None
      /\ memcmp buf DDS_magic 4 = None
      /\ (length buf <? 128)%nat = true
      /\ main_body env anOutput aSide f st = Stop (OutOfBounds st)
      /\ main_body env anOutput aSide f st
         <> Stop (Return 1 (say (MsgNotDDS (in_path f)) st))).
Proof.
  intros E. split.
  - intros H4. split; [apply read_bytes_Some; cbn; lia|].
    split.
    { destruct (memcmp_in_bounds buf H4) as (c & Hc & _). exists c. exact Hc. }
    intros st' Hbody.
    destruct (list_eq_dec Byte.byte_eq_dec (firstn 4 buf) DDS_magic) as [Hm|Hm];
      [| rewrite (main_body_not_dds _ _ _ _ _ buf E H4 (or_introl Hm)) in Hbody;
         discriminate Hbody ].
    destruct (le_lt_dec 128 (length buf)) as [Hlen|Hlen];
      [| rewrite (main_body_not_dds _ _ _ _ _ buf E H4 (or_intror Hlen)) in Hbody;
         discriminate Hbody ].
    rewrite (main_body_dds _ _ _ _ _ buf E Hm Hlen) in Hbody. cbv zeta in Hbody.
    unfold first_or_check in Hbody.
    destruct (header_invalid (face_header buf)); [discriminate Hbody|].
    destruct (negb (Width (face_header buf) =? Height (face_header buf)));
      [discriminate Hbody|].
    destruct (Nat.eqb aSide 0).
    + destruct (out_opens env); discriminate Hbody.
    + destruct (header_inconsistent _ _); discriminate Hbody.
  - intros H4. split; [apply read_bytes_None; lia|].
    split; [apply memcmp_out_of_bounds; exact H4|].
    split; [apply Nat.ltb_lt; lia|].
    rewrite (main_body_short _ _ _ _ _ buf E H4). split; [reflexivity|discriminate].
Qed.

Lemma C10_magic_compared_before_size_witness :
  (exists c, memcmp [x44; x44; x53; x00; x01] DDS_magic 4 = Some c)
  /\ main_body sample_env "result.dds" 0 (mkInFile "PX.dds" (Some [x44; x44; x53]))
       initial_state
     = Stop (OutOfBounds initial_state).
Proof.
  split.
  - destruct (C10_magic_compared_before_size sample_env "result.dds" 0
                (mkInFile "PX.dds" (Some [x44; x44; x53; x00; x01]))
                initial_state [x44; x44; x53; x00; x01] eq_refl) as [Hin _].
    apply Hin. cbn. lia.
  - destruct (C10_magic_compared_before_size sample_env "result.dds" 0
                (mkInFile "PX.dds" (Some [x44; x44; x53]))
                initial_state [x44; x44; x53] eq_refl) as [_ Hout].
    apply Hout. cbn. lia.
Defined.

(* ------------------------------------------------------------------ *)
(** ** C7: square sides *)

(** C7. When the run arrives at a side that is a DDS file with a header
    that passes the header test and whose width differs from its height,
    the run ends with status 1 and the message that the file is not
    suitable for a cube map (NotCubemapCompatibleError), whether or not the
    side agrees with the first one.  The test comes after the mip
    comparison (the [Side] line and the mip warning, if any, are printed
    before the error) and before the result file is opened or written
    (the result file is as the earlier sides left it, and does not exist
    when the side is the first). *)
Theorem C7_not_square env anOutput pre f rest st buf :
  length (pre ++ f :: rest) = 6%nat ->
  string_empty anOutput = false ->
  main_loop env anOutput 0 pre initial_state = Next st ->
  in_data f = Some buf ->
  firstn 4 buf = DDS_magic ->
  (128 <= length buf)%nat ->
  Size (face_header buf) = 124 ->
  PF_Size (PixelFormatDef (face_header buf)) = 32 ->
  Width (face_header buf) <> 0 ->
  Height (face_header buf) <> 0 ->
  Width (face_header buf) <> Height (face_header buf) ->
  main env (pre ++ f :: rest) anOutput
  = Return 1 (say (MsgNotSuitable (in_path f))
                (report_side (length pre) (face_header buf)
                   (set_anInHeader (length pre) (face_header buf) st)))
  /\ failure (main env (pre ++ f :: rest) anOutput)
     = Some NotCubemapCompatibleError
  /\ cerr (final_state (main env (pre ++ f :: rest) anOutput))
     = cerr st ++ side_report (length pre) (face_header buf)
         ++ [MsgNotSuitable (in_path f)]
  /\ aResFile (final_state (main env (pre ++ f :: rest) anOutput)) = aResFile st
  /\ (pre = [] ->
      aResFile (final_state (main env (pre ++ f :: rest) anOutput)) = None).
Proof.
  intros Hlen Hout Hpre E Hm H128 Hs Hp Hw Hh Hsq.
  pose proof (main_body_dds env anOutput (length pre) f st buf E Hm H128) as Hbody.
  cbv zeta in Hbody.
  assert (Hv : header_invalid (face_header buf) = false)
    by (apply header_invalid_false; tauto).
  rewrite Hv in Hbody. apply Z.eqb_neq in Hsq. rewrite Hsq in Hbody.
  cbn [negb] in Hbody.
  rewrite (main_stops_at _ _ _ _ _ _ _ Hlen Hout Hpre Hbody).
  rewrite failure_say. cbn [final_state].
  destruct (header_wf_fields _ (face_header_wf buf H128)) as (Uw & Uh & _).
  split; [reflexivity|]. split; [reflexivity|]. split.
  { cbn [say cerr]. rewrite cerr_report_side.
    cbn [set_anInHeader cerr]. rewrite <- app_assoc. reflexivity. }
  assert (Hfile : aResFile
                    (say (MsgNotSuitable (in_path f))
                       (report_side (length pre) (face_header buf)
                          (set_anInHeader (length pre) (face_header buf) st)))
                  = aResFile st).
  { rewrite aResFile_say, aResFile_report_side. reflexivity. }
  split; [exact Hfile|].
  intros ->. rewrite Hfile. cbn [main_loop] in Hpre. injection Hpre as <-.
  reflexivity.
Qed.

Lemma C7_not_square_witness :
  failure (main sample_env wide_third_input "result.dds")
  = Some NotCubemapCompatibleError
  /\ last_msg (main sample_env wide_third_input "result.dds")
     = Some (MsgNotSuitable "PY.dds").
Proof.
  destruct (main_loop sample_env "result.dds" 0 (firstn 2 sample_input)
              initial_state) as [st|o] eqn:Hpre;
    [|vm_compute in Hpre; discriminate Hpre].
  destruct (C7_not_square sample_env "result.dds" (firstn 2 sample_input)
              (mkInFile "PY.dds" (Some wide_buf)) (skipn 3 sample_input)
              st wide_buf)
    as (Hrun & Hfail & _).
  - reflexivity.
  - reflexivity.
  - exact Hpre.
  - reflexivity.
  - reflexivity.
  - apply Nat.leb_le. reflexivity.
  - vm_compute. reflexivity.
  - vm_compute. reflexivity.
  - vm_compute. discriminate.
  - vm_compute. discriminate.
  - vm_compute. discriminate.
  - split; [exact Hfail|].
    unfold wide_third_input. rewrite Hrun. apply last_msg_say.
Defined.

(* ------------------------------------------------------------------ *)
(** ** C8: agreement with the first side *)




(* ------------------------------------------------------------------ *)
(** ** C9: the mip warning *)

Lemma run_report_nth (bufs : list (list byte)) :
  forall aSide i b,
    nth_error bufs i = Some b ->
    exists l1 l2,
      run_report aSide bufs
      = l1 ++ side_report (aSide + i) (face_header b) ++ l2.
Proof.
  induction bufs as [|b' bufs IH]; intros aSide [|i] b Hnth;
    cbn [nth_error] in Hnth; try discriminate Hnth.
  - injection Hnth as ->. exists [], (run_report (S aSide) bufs).
    cbn [run_report app]. rewrite Nat.add_0_r. reflexivity.
  - destruct (IH (S aSide) i b Hnth) as (l1 & l2 & Heq).
    exists (side_report aSide (face_header b') ++ l1), l2.
    cbn [run_report]. rewrite Heq, <- app_assoc.
    replace (aSide + S i)%nat with (S aSide + i)%nat by lia. reflexivity.
Qed.

(** C9. A declared mip count that differs from the complete one is answered
    with a warning and nothing else: on six readable, valid, square and
    mutually consistent inputs, whatever mip counts they declare, the run
    ends with status 0, and for each side whose declared count differs from
    [expectedMipCount] of its dimensions the warning with the declared and
    the expected count follows the [Side] line of that side on [std::cerr]. *)
Theorem C9_mip_mismatch_warns env anInput anOutput b0 bufs :
  out_opens env = true -> out_good env = true ->
  string_empty anOutput = false ->
  length anInput = 6%nat ->
  map in_data anInput = map Some (b0 :: bufs) ->
  Forall face_sound (b0 :: bufs) ->
  Forall (fun b => face_fits (face_header b0) (face_header b)) bufs ->
  exists st,
    main env anInput anOutput = Return 0 st
    /\ cerr st = run_report 0 (b0 :: bufs)
    /\ forall i b aNbMipComplete,
         nth_error (b0 :: bufs) i = Some b ->
         expectedMipCount (Width (face_header b)) (Height (face_header b))
         = Some aNbMipComplete ->
         aNbMipComplete <> MipMapCount (face_header b) ->
         exists l1 l2,
           cerr st
           = l1
             ++ [ MsgSide i (Width (face_header b)) (Height (face_header b))
                    (FourCC (PixelFormatDef (face_header b)))
                    (MipMapCount (face_header b));
                  MsgIncompleteMips (MipMapCount (face_header b)) aNbMipComplete ]
             ++ l2.
Proof.
  intros Ho Hg Hout Hlen Hmap Hs Hf.
  destruct anInput as [|f anInput]; [discriminate Hlen|].
  cbn [map] in Hmap. injection Hmap as E0 Hmap.
  destruct (main_loop_sound env anOutput f anInput b0 bufs Ho E0 Hmap Hs Hf)
    as (st & Hl & _ & Hcerr).
  exists st. split.
  { unfold main. rewrite Hlen, Hout, Hl, Hg. reflexivity. }
  split; [exact Hcerr|].
  intros i b n Hnth Hexp Hne.
  destruct (run_report_nth (b0 :: bufs) 0 i b Hnth) as (l1 & l2 & Heq).
  exists l1, l2. rewrite Hcerr, Heq. cbn [plus].
  unfold side_report. rewrite Hexp.
  apply Z.eqb_neq in Hne. rewrite Hne. reflexivity.
Qed.

Lemma C9_mip_mismatch_warns_witness :
  exists st,
    main sample_env five_mips_input "result.dds" = Return 0 st
    /\ In (MsgIncompleteMips 5 9) (cerr st).
Proof.
  destruct (C9_mip_mismatch_warns sample_env five_mips_input "result.dds"
              (hd [] five_mips_bufs) (tl five_mips_bufs))
    as (st & Hrun & _ & Hwarn).
  - reflexivity.
  - reflexivity.
  - reflexivity.
  - reflexivity.
  - reflexivity.
  - repeat (apply Forall_cons; [solve_face_sound|]). apply Forall_nil.
  - repeat (apply Forall_cons; [solve_face_fits|]). apply Forall_nil.
  - exists st. split; [exact Hrun|].
    destruct (Hwarn 0%nat (hd [] five_mips_bufs) 9) as (l1 & l2 & Heq).
    + reflexivity.
    + vm_compute. reflexivity.
    + vm_compute. discriminate.
    + rewrite Heq. apply in_or_app. right. right. left.
      vm_compute. reflexivity.
Defined.


(* ================================================================== *)
(** * Further properties of the program *)

(* ------------------------------------------------------------------ *)
(** ** The command line *)

Lemma parse_args_plain (args : list string) :
  forall anInput anOutput,
    Forall plain args ->
    parse_args args anInput anOutput = ArgsParsed (anInput ++ args) anOutput.
Proof.
  induction args as [|a args IH]; intros anInput anOutput Hp.
  - cbn [parse_args]. rewrite app_nil_r. reflexivity.
  - inversion Hp as [|? ? [Hh Ho] Hp']; subst.
    cbn [parse_args]. rewrite Hh, Ho, IH by exact Hp'.
    rewrite <- app_assoc. reflexivity.
Qed.

(** Arguments that were scanned to the end are forgotten: the scan goes on
    from what they left in [anInput] and [anOutput]. *)
Lemma parse_args_app (pre : list string) :
  forall rest anInput anOutput anInput' anOutput',
    parse_args pre anInput anOutput = ArgsParsed anInput' anOutput' ->
    parse_args (pre ++ rest) anInput anOutput
    = parse_args rest anInput' anOutput'.
Proof.
  remember (length pre) as n eqn:Hn. revert pre Hn.
  induction n as [n IH] using lt_wf_ind.
  intros pre Hn rest anInput anOutput anInput' anOutput' Hpre.
  destruct pre as [|a pre].
  - cbn [parse_args] in Hpre. injection Hpre as <- <-. reflexivity.
  - cbn [parse_args app] in *.
    destruct (is_help a); [discriminate Hpre|].
    destruct (is_o a).
    + destruct pre as [|v pre]; [discriminate Hpre|].
      cbn [app]. apply (IH (length pre)) with (pre := pre);
        [subst n; cbn; lia | reflexivity | exact Hpre].
    + apply (IH (length pre)) with (pre := pre);
        [subst n; cbn; lia | reflexivity | exact Hpre].
Qed.

Lemma parse_args_output_last (paths : list string) (aValue : string) :
  Forall plain paths ->
  parse_args (paths ++ [ "-o"%string; aValue ]) [] EmptyString
  = ArgsParsed paths aValue.
Proof.
  intros Hp.
  rewrite (parse_args_app paths _ [] EmptyString paths EmptyString)
    by (apply (parse_args_plain paths [] EmptyString Hp)).
  reflexivity.
Qed.

(** X1. [-o] may stand anywhere among the positional arguments; the
    argument after it becomes the output path as it is, even when it reads
    like an option, and the other arguments are the inputs in their order. *)
Theorem X1_output_option_anywhere (pre post : list string) (aValue : string) :
  Forall plain pre -> Forall plain post ->
  parse_args (pre ++ "-o"%string :: aValue :: post) [] EmptyString
  = ArgsParsed (pre ++ post) aValue.
Proof.
  intros Hpre Hpost.
  rewrite (parse_args_app pre _ [] EmptyString pre EmptyString)
    by (apply (parse_args_plain pre [] EmptyString Hpre)).
  cbn [parse_args]. change (is_help "-o") with false. change (is_o "-o") with true.
  cbv iota. apply parse_args_plain. exact Hpost.
Qed.

Lemma X1_output_option_anywhere_witness :
  parse_args [ "a.dds"; "-o"; "--help"; "b.dds" ]%string [] EmptyString
  = ArgsParsed [ "a.dds"; "b.dds" ]%string "--help"%string.
Proof.
  apply (X1_output_option_anywhere [ "a.dds" ]%string [ "b.dds" ]%string "--help"%string).
  - repeat constructor.
  - repeat constructor.
Defined.

(** X2. When [-o] is given twice, the second value is the output path and
    the first is dropped; neither is taken as an input. *)
Theorem X2_last_output_option_wins (pre mid post : list string) (v1 v2 : string) :
  Forall plain pre -> Forall plain mid -> Forall plain post ->
  parse_args (pre ++ "-o"%string :: v1 :: mid ++ "-o"%string :: v2 :: post)
    [] EmptyString
  = ArgsParsed (pre ++ mid ++ post) v2.
Proof.
  intros Hpre Hmid Hpost.
  rewrite (parse_args_app pre _ [] EmptyString pre EmptyString)
    by (apply (parse_args_plain pre [] EmptyString Hpre)).
  cbn [parse_args]. change (is_help "-o") with false. change (is_o "-o") with true.
  cbv iota.
  rewrite (parse_args_app mid _ pre v1 (pre ++ mid) v1)
    by (apply parse_args_plain; exact Hmid).
  cbn [parse_args]. change (is_help "-o") with false. change (is_o "-o") with true.
  cbv iota. rewrite parse_args_plain by exact Hpost.
  rewrite <- app_assoc. reflexivity.
Qed.

Lemma X2_last_output_option_wins_witness :
  parse_args [ "-o"; "one.dds"; "a.dds"; "-o"; "two.dds" ]%string [] EmptyString
  = ArgsParsed [ "a.dds" ]%string "two.dds"%string.
Proof.
  apply (X2_last_output_option_wins [] [ "a.dds" ]%string [] "one.dds" "two.dds");
    repeat constructor.
Defined.

(** X3. A help option that the scan reaches (every [-o] before it has its
    value) ends the program with status 1 after printing the usage text on
    [std::cout]: nothing is printed on [std::cerr], no input is read and
    no result file is created, whatever the other arguments are. *)
Theorem X3_help_option env reads (prog : string) (pre post : list string)
    (anArg : string) anInput anOutput :
  parse_args pre [] EmptyString = ArgsParsed anInput anOutput ->
  is_help anArg = true ->
  program env reads (prog :: pre ++ anArg :: post)
  = Finished (printHelp []) (Return 1 initial_state).
Proof.
  intros Hpre Hh. unfold program.
  assert (Hlen : (length (prog :: pre ++ anArg :: post) <=? 1)%nat = false).
  { apply Nat.leb_gt. cbn [length]. rewrite length_app. cbn [length]. lia. }
  rewrite Hlen. cbn [tl].
  rewrite (parse_args_app pre _ _ _ _ _ Hpre). cbn [parse_args].
  rewrite Hh. reflexivity.
Qed.

Lemma X3_help_option_witness :
  program sample_env (fun _ => None)
    [ "ddscubemap"; "a.dds"; "-o"; "-help"; "--help"; "b.dds" ]%string
  = Finished (printHelp []) (Return 1 initial_state).
Proof.
  apply (X3_help_option sample_env (fun _ => None) "ddscubemap"
           [ "a.dds"; "-o"; "-help" ]%string [ "b.dds" ]%string "--help"
           [ "a.dds" ]%string "-help"%string).
  - reflexivity.
  - reflexivity.
Defined.

(** X4. A [-o] that is the last argument makes the program assign the null
    pointer that ends the argument vector to [anOutput]; it does not end
    with the syntax error message. *)
Theorem X4_output_option_without_value env reads (prog : string)
    (pre : list string) anInput anOutput :
  parse_args pre [] EmptyString = ArgsParsed anInput anOutput ->
  program env reads (prog :: pre ++ [ "-o"%string ]) = NullArgument.
Proof.
  intros Hpre. unfold program.
  assert (Hlen : (length (prog :: pre ++ [ "-o"%string ]) <=? 1)%nat = false).
  { apply Nat.leb_gt. cbn [length]. rewrite length_app. cbn [length]. lia. }
  rewrite Hlen. cbn [tl].
  rewrite (parse_args_app pre _ _ _ _ _ Hpre). reflexivity.
Qed.

Lemma X4_output_option_without_value_witness :
  program sample_env (fun _ => None)
    [ "ddscubemap"; "a.dds"; "b.dds"; "c.dds"; "d.dds"; "e.dds"; "f.dds"; "-o" ]%string
  = NullArgument.
Proof.
  apply (X4_output_option_without_value sample_env (fun _ => None) "ddscubemap"
           [ "a.dds"; "b.dds"; "c.dds"; "d.dds"; "e.dds"; "f.dds" ]%string
           [ "a.dds"; "b.dds"; "c.dds"; "d.dds"; "e.dds"; "f.dds" ]%string
           EmptyString).
  reflexivity.
Defined.

Lemma length_open_inputs reads (anInput : list string) :
  forall aSide, length (open_inputs reads aSide anInput) = length anInput.
Proof.
  induction anInput as [|p ps IH]; intros aSide; cbn [open_inputs length];
    [reflexivity | rewrite IH; reflexivity].
Qed.

Lemma in_data_open_inputs reads (anInput : list string) :
  forall aSide,
    map in_data (open_inputs reads aSide anInput)
    = map reads (seq aSide (length anInput)).
Proof.
  induction anInput as [|p ps IH]; intros aSide; cbn [open_inputs length seq map];
    [reflexivity | rewrite IH; reflexivity].
Qed.

Lemma main_wrong_count env (anInput : list InFile) (anOutput : string) :
  length anInput <> 6%nat \/ anOutput = EmptyString ->
  main env anInput anOutput = Return 1 (say MsgSyntaxError initial_state).
Proof.
  intros Hbad. unfold main.
  destruct (Nat.eqb_spec (length anInput) 6) as [Hlen|Hlen]; [|reflexivity].
  destruct Hbad as [Hbad | ->]; [contradiction | reflexivity].
Qed.

(** X5. With a number of input paths other than six, with an empty output
    path, or with no [-o] at all, the program ends with status 1 and the
    syntax error message alone: it prints no usage text, reads no input and
    creates no result file, whatever the files and the output stream are. *)
Theorem X5_wrong_argument_count env reads (prog : string) (paths : list string)
    (aValue : string) :
  Forall plain paths ->
  (length paths <> 6%nat \/ aValue = EmptyString ->
   program env reads (prog :: paths ++ [ "-o"%string; aValue ])
   = Finished [] (Return 1 (say MsgSyntaxError initial_state)))
  /\ (paths <> [] ->
      program env reads (prog :: paths)
      = Finished [] (Return 1 (say MsgSyntaxError initial_state))).
Proof.
  intros Hp. split.
  - intros Hbad. unfold program.
    assert (Hlen : (length (prog :: paths ++ [ "-o"%string; aValue ]) <=? 1)%nat
                   = false).
    { apply Nat.leb_gt. cbn [length]. rewrite length_app. cbn [length]. lia. }
    rewrite Hlen. cbn [tl].
    rewrite (parse_args_output_last paths aValue Hp).
    rewrite main_wrong_count; [reflexivity|].
    rewrite length_open_inputs. exact Hbad.
  - intros Hne. unfold program.
    destruct paths as [|p ps]; [contradiction|].
    cbn [length Nat.leb tl].
    rewrite parse_args_plain by exact Hp. cbn [app].
    rewrite main_wrong_count; [reflexivity | right; reflexivity].
Qed.

Lemma X5_wrong_argument_count_witness :
  program sample_env (fun _ => None)
    [ "ddscubemap"; "a.dds"; "b.dds"; "c.dds"; "d.dds"; "e.dds"; "-o"; "r.dds" ]%string
  = Finished [] (Return 1 (say MsgSyntaxError initial_state))
  /\ program sample_env (fun _ => None)
       [ "ddscubemap"; "a.dds"; "b.dds"; "c.dds"; "d.dds"; "e.dds"; "f.dds" ]%string
     = Finished [] (Return 1 (say MsgSyntaxError initial_state)).
Proof.
  split.
  - destruct (X5_wrong_argument_count sample_env (fun _ => None) "ddscubemap"
                [ "a.dds"; "b.dds"; "c.dds"; "d.dds"; "e.dds" ]%string "r.dds")
      as [Hcount _]; [repeat constructor|].
    apply Hcount. left. cbn. lia.
  - destruct (X5_wrong_argument_count sample_env (fun _ => None) "ddscubemap"
                [ "a.dds"; "b.dds"; "c.dds"; "d.dds"; "e.dds"; "f.dds" ]%string
                EmptyString)
      as [_ Hnone]; [repeat constructor|].
    apply Hnone. discriminate.
Defined.

(** X6. The usual command line: six input paths and [-o] with a non-empty
    path, before or after them.  When the six files read are valid, square
    and consistent and the output stream opens and stays good, the program
    ends with status 0, nothing on [std::cout], one [Side] line (and mip
    warning) per side on [std::cerr], and the result file made of the magic,
    the flagged first header and the six payloads. *)
Theorem X6_usual_command_line env reads (prog : string) (paths : list string)
    (anOutput : string) b0 bufs :
  Forall plain paths ->
  length paths = 6%nat ->
  string_empty anOutput = false ->
  out_opens env = true -> out_good env = true ->
  map reads (seq 0 6) = map Some (b0 :: bufs) ->
  Forall face_sound (b0 :: bufs) ->
  Forall (fun b => face_fits (face_header b0) (face_header b)) bufs ->
  exists st,
    program env reads (prog :: paths ++ [ "-o"%string; anOutput ])
    = Finished [] (Return 0 st)
    /\ program env reads (prog :: "-o"%string :: anOutput :: paths)
       = Finished [] (Return 0 st)
    /\ aResFile st = Some (result_file b0 bufs)
    /\ cerr st = run_report 0 (b0 :: bufs).
Proof.
  intros Hp Hlen Hout Ho Hg Hreads Hs Hf.
  pose proof (in_data_open_inputs reads paths 0) as Hdata.
  rewrite Hlen, Hreads in Hdata.
  destruct (open_inputs reads 0 paths) as [|f anInput] eqn:Eopen;
    [discriminate Hdata|].
  cbn [map] in Hdata. injection Hdata as E0 Hmap.
  destruct (main_loop_sound env anOutput f anInput b0 bufs Ho E0 Hmap Hs Hf)
    as (st & Hl & Hfile & Hcerr).
  assert (Hmain : main env (f :: anInput) anOutput = Return 0 st).
  { unfold main. rewrite <- Eopen, length_open_inputs, Hlen, Eopen, Hout, Hl, Hg.
    reflexivity. }
  exists st. split; [|split; [|split; assumption]].
  - unfold program.
    assert (Hn : (length (prog :: paths ++ [ "-o"%string; anOutput ]) <=? 1)%nat
                 = false).
    { apply Nat.leb_gt. cbn [length]. rewrite length_app. cbn [length]. lia. }
    rewrite Hn. cbn [tl]. rewrite (parse_args_output_last paths anOutput Hp).
    rewrite Eopen, Hmain. reflexivity.
  - unfold program.
    assert (Hn : (length (prog :: "-o"%string :: anOutput :: paths) <=? 1)%nat
                 = false) by reflexivity.
    rewrite Hn. cbn [tl parse_args].
    change (is_help "-o") with false. change (is_o "-o") with true. cbv iota.
    rewrite parse_args_plain by exact Hp. cbn [app].
    rewrite Eopen, Hmain. reflexivity.
Qed.

Lemma X6_usual_command_line_witness :
  exists st,
    program sample_env (fun i => nth_error sample_bufs i)
      ("ddscubemap" :: sample_paths ++ [ "-o"; "result.dds" ])%string
    = Finished [] (Return 0 st)
    /\ aResFile st = Some (result_file (hd [] sample_bufs) (tl sample_bufs)).
Proof.
  destruct (X6_usual_command_line sample_env (fun i => nth_error sample_bufs i)
              "ddscubemap" sample_paths "result.dds"
              (hd [] sample_bufs) (tl sample_bufs))
    as (st & Hrun & _ & Hfile & _).
  - repeat constructor.
  - reflexivity.
  - reflexivity.
  - reflexivity.
  - reflexivity.
  - reflexivity.
  - repeat (apply Forall_cons; [solve_face_sound|]). apply Forall_nil.
  - repeat (apply Forall_cons; [solve_face_fits|]). apply Forall_nil.
  - exists st. split; assumption.
Defined.

(* ------------------------------------------------------------------ *)
(** ** How a side and the loop can stop *)

Lemma side_report_no_error (aSide : nat) (h : DDSFileHeader) :
  Forall no_error (side_report aSide h).
Proof.
  unfold side_report. constructor; [reflexivity|].
  destruct (expectedMipCount (Width h) (Height h)) as [n|]; [|constructor].
  destruct (negb (n =? MipMapCount h)); repeat constructor.
Qed.

(** A side that stops the loop either read outside a buffer of fewer than
    four bytes, or returned 1 after one error message; up to that message
    it printed no error and left the result file alone. *)
Lemma main_body_Stop_inv env anOutput aSide f st o :
  main_body env anOutput aSide f st = Stop o ->
  (exists buf, in_data f = Some buf /\ (length buf < 4)%nat /\ o = OutOfBounds st)
  \/ (exists m st' ms,
        o = Return 1 (say m st')
        /\ error_kind m <> None
        /\ aResFile st' = aResFile st
        /\ cerr st' = cerr st ++ ms
        /\ Forall no_error ms).
Proof.
  intros H.
  destruct (in_data f) as [buf|] eqn:E.
  2:{ rewrite main_body_unreadable in H by exact E. injection H as <-.
      right. exists (MsgUnableToRead (in_path f)), st, [].
      rewrite app_nil_r. repeat split; [discriminate | constructor]. }
  destruct (le_lt_dec 4 (length buf)) as [H4|H4].
  2:{ rewrite (main_body_short _ _ _ _ _ buf E H4) in H. injection H as <-.
      left. exists buf. repeat split. exact H4. }
  right.
  assert (Hnot : forall Hbad : firstn 4 buf <> DDS_magic \/ (length buf < 128)%nat,
             exists m st' ms,
               o = Return 1 (say m st') /\ error_kind m <> None
               /\ aResFile st' = aResFile st /\ cerr st' = cerr st ++ ms
               /\ Forall no_error ms).
  { intros Hbad. rewrite (main_body_not_dds _ _ _ _ _ buf E H4 Hbad) in H.
    injection H as <-. exists (MsgNotDDS (in_path f)), st, [].
    rewrite app_nil_r. repeat split; [discriminate | constructor]. }
  destruct (list_eq_dec Byte.byte_eq_dec (firstn 4 buf) DDS_magic) as [Hm|Hm];
    [| apply Hnot; left; exact Hm ].
  destruct (le_lt_dec 128 (length buf)) as [Hlen|Hlen];
    [| apply Hnot; right; exact Hlen ].
  clear Hnot.
  rewrite (main_body_dds _ _ _ _ _ buf E Hm Hlen) in H. cbv zeta in H.
  unfold first_or_check in H.
  destruct (header_invalid (face_header buf)).
  { injection H as <-.
    exists (MsgNotValidDDS (in_path f)), (set_anInHeader aSide (face_header buf) st), [].
    rewrite app_nil_r. repeat split; [discriminate | constructor]. }
  destruct (negb (Width (face_header buf) =? Height (face_header buf))).
  { injection H as <-.
    exists (MsgNotSuitable (in_path f)),
      (report_side aSide (face_header buf)
         (set_anInHeader aSide (face_header buf) st)),
      (side_report aSide (face_header buf)).
    repeat split; [discriminate | apply side_report_no_error]. }
  destruct (Nat.eqb aSide 0).
  - destruct (out_opens env); [discriminate H|]. injection H as <-.
    exists (MsgUnableToWrite anOutput),
      (set_aResHeader (result_header (face_header buf))
         (report_side aSide (face_header buf)
            (set_anInHeader aSide (face_header buf) st))),
      (side_report aSide (face_header buf)).
    repeat split; [discriminate | apply side_report_no_error].
  - destruct (header_inconsistent _ _); [|discriminate H]. injection H as <-.
    exists (MsgInconsistent (in_path f)),
      (report_side aSide (face_header buf)
         (set_anInHeader aSide (face_header buf) st)),
      (side_report aSide (face_header buf)).
    repeat split; [discriminate | apply side_report_no_error].
Qed.



(** What the result file holds once the first side and the sides [pre]
    after it have passed. *)
Lemma main_loop_prefix_file env anOutput f0 pre st b0 bufs :
  main_loop env anOutput 0 (f0 :: pre) initial_state = Next st ->
  map in_data (f0 :: pre) = map Some (b0 :: bufs) ->
  aResFile st = Some (result_file b0 bufs)
  /\ cerr st = run_report 0 (b0 :: bufs)
  /\ Forall face_sound (b0 :: bufs)
  /\ Forall (fun b => face_fits (face_header b0) (face_header b)) bufs
  /\ out_opens env = true.
Proof.
  intros Hrun Hmap. cbn [map] in Hmap. injection Hmap as E0 Hmap.
  pose proof Hrun as Hrun'. cbn [main_loop] in Hrun'.
  destruct (main_body env anOutput 0 f0 initial_state) as [st0|o] eqn:Eb;
    [|discriminate Hrun'].
  apply main_body_Next_inv in Eb.
  destruct Eb as (b & Eb' & Hs0 & Hfirst & _).
  rewrite E0 in Eb'. injection Eb' as <-.
  destruct (Hfirst eq_refl) as (Ho & ->).
  apply main_loop_others_inv in Hrun'; [|lia].
  destruct Hrun' as (bufs' & Hmap' & Hss & Hfs).
  assert (bufs' = bufs).
  { rewrite Hmap in Hmap'. clear - Hmap'. revert bufs' Hmap'.
    induction bufs as [|x xs IH]; intros [|y ys] H; cbn in H;
      try discriminate H; [reflexivity|].
    injection H as -> H. f_equal. apply IH. exact H. }
  subst bufs'.
  rewrite first_header_after_first in Hfs by (cbn; lia).
  destruct (main_loop_sound env anOutput f0 pre b0 bufs Ho E0 Hmap
              (Forall_cons _ Hs0 Hss) Hfs) as (st' & Hl & Hfile & Hcerr).
  rewrite Hrun in Hl. injection Hl as <-.
  repeat split; try assumption. constructor; assumption.
Qed.

(* ------------------------------------------------------------------ *)
(** ** Success, and the ways a run fails that the claims leave out *)

(** X7. The run from line 86 on ends with status 0 exactly when there are
    six inputs and a non-empty output path, every input is read and is a
    valid, square DDS file that agrees with the first in width, height and
    FourCC, the output stream opens and it is still good after [close]. *)
Theorem X7_success_iff env (anInput : list InFile) (anOutput : string) :
  (exists st, main env anInput anOutput = Return 0 st)
  <-> length anInput = 6%nat
      /\ string_empty anOutput = false
      /\ out_opens env = true
      /\ out_good env = true
      /\ exists b0 bufs,
           map in_data anInput = map Some (b0 :: bufs)
           /\ Forall face_sound (b0 :: bufs)
           /\ Forall (fun b => face_fits (face_header b0) (face_header b)) bufs.
Proof.
  split.
  - intros (st & Hrun).
    destruct (main_Return_0_inv _ _ _ _ Hrun) as (b0 & bufs & Hmap & Hlen & Hs & Hf & _).
    unfold main in Hrun. rewrite Hlen in Hrun. cbn [Nat.eqb negb orb] in Hrun.
    destruct (string_empty anOutput); [discriminate Hrun|].
    destruct (main_loop env anOutput 0 anInput initial_state) as [st1|o] eqn:El.
    + destruct (out_good env); [|discriminate Hrun].
      destruct anInput as [|f0 pre]; [discriminate Hlen|].
      destruct (main_loop_prefix_file _ _ _ _ _ _ _ El Hmap) as (_ & _ & _ & _ & Ho).
      repeat split; try assumption. exists b0, bufs. repeat split; assumption.
    + subst o. apply main_loop_Stop_code in El. discriminate El.
  - intros (Hlen & Hout & Ho & Hg & b0 & bufs & Hmap & Hs & Hf).
    destruct anInput as [|f anInput]; [discriminate Hlen|].
    cbn [map] in Hmap. injection Hmap as E0 Hmap.
    destruct (main_loop_sound env anOutput f anInput b0 bufs Ho E0 Hmap Hs Hf)
      as (st & Hl & _).
    exists st. unfold main. rewrite Hlen, Hout, Hl, Hg. reflexivity.
Qed.

(** X8. When the run arrives at an input that cannot be opened or is read
    short, it ends with status 1 and the message that the file cannot be
    read (an IoError), and the result file is as the earlier sides left
    it. *)
Theorem X8_unreadable_input env anOutput pre f rest st :
  length (pre ++ f :: rest) = 6%nat ->
  string_empty anOutput = false ->
  main_loop env anOutput 0 pre initial_state = Next st ->
  in_data f = None ->
  main env (pre ++ f :: rest) anOutput
  = Return 1 (say (MsgUnableToRead (in_path f)) st)
  /\ failure (main env (pre ++ f :: rest) anOutput) = Some IoError
  /\ aResFile (final_state (main env (pre ++ f :: rest) anOutput)) = aResFile st.
Proof.
  intros Hlen Hout Hpre E.
  pose proof (main_body_unreadable env anOutput (length pre) f st E) as Hbody.
  rewrite (main_stops_at _ _ _ _ _ _ _ Hlen Hout Hpre Hbody).
  rewrite failure_say. repeat split.
Qed.

Lemma X8_unreadable_input_witness :
  main sample_env (mkInFile "PX.dds" None :: tl sample_input) "result.dds"
  = Return 1 (say (MsgUnableToRead "PX.dds") initial_state).
Proof.
  apply (X8_unreadable_input sample_env "result.dds" [] (mkInFile "PX.dds" None)
           (tl sample_input) initial_state); reflexivity.
Defined.

(** X9. When the first input passes every test and the result file cannot
    be opened, the run ends with status 1 and the message that the result
    file cannot be written, which names the output path; the [Side] line of
    the first input (and its mip warning) is already printed, no result
    file exists, and the other five inputs are not looked at. *)
Theorem X9_output_cannot_be_opened env anOutput f rest buf :
  length (f :: rest) = 6%nat ->
  string_empty anOutput = false ->
  in_data f = Some buf ->
  face_sound buf ->
  out_opens env = false ->
  failure (main env (f :: rest) anOutput) = Some IoError
  /\ cerr (final_state (main env (f :: rest) anOutput))
     = side_report 0 (face_header buf) ++ [MsgUnableToWrite anOutput]
  /\ aResFile (final_state (main env (f :: rest) anOutput)) = None
  /\ exit_status (main env (f :: rest) anOutput) = Some 1.
Proof.
  intros Hlen Hout E Hs Ho.
  pose proof (main_body_first_no_open env anOutput f initial_state buf E Hs Ho)
    as Hbody.
  pose proof (main_stops_at env anOutput [] f rest initial_state _ Hlen Hout
                eq_refl Hbody) as Hmain.
  cbn [app] in Hmain. rewrite Hmain, failure_say. repeat split.
Qed.

Lemma X9_output_cannot_be_opened_witness :
  failure (main (mkOutEnv false true) sample_input "result.dds") = Some IoError
  /\ aResFile (final_state (main (mkOutEnv false true) sample_input "result.dds"))
     = None.
Proof.
  destruct (X9_output_cannot_be_opened (mkOutEnv false true) "result.dds"
              (hd (mkInFile "x" None) sample_input) (tl sample_input)
              (hd [] sample_bufs))
    as (Hfail & _ & Hfile & _).
  - reflexivity.
  - reflexivity.
  - reflexivity.
  - solve_face_sound.
  - reflexivity.
  - split; assumption.
Defined.

(** X10. When all six inputs pass and the output stream is not good after
    [close], the run ends with status 1 and the message that the result
    file cannot be written, after everything had been handed to the stream:
    the magic, the flagged header and the six payloads. *)
Theorem X10_output_not_good_after_close env anInput anOutput b0 bufs :
  out_opens env = true -> out_good env = false ->
  string_empty anOutput = false ->
  length anInput = 6%nat ->
  map in_data anInput = map Some (b0 :: bufs) ->
  Forall face_sound (b0 :: bufs) ->
  Forall (fun b => face_fits (face_header b0) (face_header b)) bufs ->
  exists st,
    main env anInput anOutput = Return 1 (say (MsgUnableToWrite anOutput) st)
    /\ failure (main env anInput anOutput) = Some IoError
    /\ aResFile st = Some (result_file b0 bufs)
    /\ cerr st = run_report 0 (b0 :: bufs).
Proof.
  intros Ho Hg Hout Hlen Hmap Hs Hf.
  destruct anInput as [|f anInput]; [discriminate Hlen|].
  cbn [map] in Hmap. injection Hmap as E0 Hmap.
  destruct (main_loop_sound env anOutput f anInput b0 bufs Ho E0 Hmap Hs Hf)
    as (st & Hl & Hfile & Hcerr).
  exists st.
  assert (Hmain : main env (f :: anInput) anOutput
                  = Return 1 (say (MsgUnableToWrite anOutput) st)).
  { unfold main. rewrite Hlen, Hout, Hl, Hg. reflexivity. }
  rewrite Hmain, failure_say. repeat split; assumption.
Qed.

Lemma X10_output_not_good_after_close_witness :
  exists st,
    main (mkOutEnv true false) sample_input "result.dds"
    = Return 1 (say (MsgUnableToWrite "result.dds") st)
    /\ aResFile st = Some (result_file (hd [] sample_bufs) (tl sample_bufs)).
Proof.
  destruct (X10_output_not_good_after_close (mkOutEnv true false) sample_input
              "result.dds" (hd [] sample_bufs) (tl sample_bufs))
    as (st & Hrun & _ & Hfile & _).
  - reflexivity.
  - reflexivity.
  - reflexivity.
  - reflexivity.
  - reflexivity.
  - repeat (apply Forall_cons; [solve_face_sound|]). apply Forall_nil.
  - repeat (apply Forall_cons; [solve_face_fits|]). apply Forall_nil.
  - exists st. split; assumption.
Defined.

Lemma main_body_Stop_file env anOutput aSide f st o :
  main_body env anOutput aSide f st = Stop o ->
  aResFile (final_state o) = aResFile st.
Proof.
  intros H. apply main_body_Stop_inv in H.
  destruct H as [(buf & _ & _ & ->) | (m & st' & ms & -> & _ & Hfile & _)];
    [reflexivity | exact Hfile].
Qed.

(** X11. A run that stops at a side after the first leaves a partial result
    file: the magic, the flagged header of the first side and the payloads
    of the sides that passed, in order, and nothing of the side that
    stopped it. *)
Theorem X11_partial_result_file env anOutput f0 pre f rest st b0 bufs o :
  length ((f0 :: pre) ++ f :: rest) = 6%nat ->
  string_empty anOutput = false ->
  main_loop env anOutput 0 (f0 :: pre) initial_state = Next st ->
  map in_data (f0 :: pre) = map Some (b0 :: bufs) ->
  main_body env anOutput (length (f0 :: pre)) f st = Stop o ->
  main env ((f0 :: pre) ++ f :: rest) anOutput = o
  /\ aResFile (final_state o)
     = Some (DDS_magic ++ encode_header (result_header (face_header b0))
               ++ concat (map (skipn 128) (b0 :: bufs)))
  /\ length (result_file b0 bufs)
     = (128 + list_sum (map (fun b => length b - 128) (b0 :: bufs)))%nat.
Proof.
  intros Hlen Hout Hpre Hmap Hbody.
  destruct (main_loop_prefix_file _ _ _ _ _ _ _ Hpre Hmap) as (Hfile & _ & Hs & _).
  split; [exact (main_stops_at _ _ _ _ _ _ _ Hlen Hout Hpre Hbody)|].
  split.
  - rewrite (main_body_Stop_file _ _ _ _ _ _ Hbody). exact Hfile.
  - apply length_result_file. inversion Hs as [|? ? Hs0 _]. apply Hs0.
Qed.

Lemma X11_partial_result_file_witness :
  aResFile (final_state (main sample_env wide_third_input "result.dds"))
  = Some (DDS_magic
            ++ encode_header (result_header (face_header (hd [] sample_bufs)))
            ++ [x01; x02; x03]).
Proof.
  destruct (main_loop sample_env "result.dds" 0 (firstn 2 sample_input)
              initial_state) as [st|o] eqn:Hpre;
    [|vm_compute in Hpre; discriminate Hpre].
  destruct (main_body sample_env "result.dds" 2 (mkInFile "PY.dds" (Some wide_buf)) st)
    as [st'|o] eqn:Hbody.
  { exfalso. revert Hbody. vm_compute in Hpre. injection Hpre as <-.
    vm_compute. discriminate. }
  destruct (X11_partial_result_file sample_env "result.dds"
              (hd (mkInFile "x" None) sample_input) [nth 1 sample_input (mkInFile "x" None)]
              (mkInFile "PY.dds" (Some wide_buf)) (skipn 3 sample_input) st
              (hd [] sample_bufs) [nth 1 sample_bufs []] o)
    as (Hrun & Hfile & _).
  - reflexivity.
  - reflexivity.
  - exact Hpre.
  - reflexivity.
  - exact Hbody.
  - change wide_third_input
      with ((hd (mkInFile "x" None) sample_input
               :: [nth 1 sample_input (mkInFile "x" None)])
              ++ mkInFile "PY.dds" (Some wide_buf) :: skipn 3 sample_input).
    rewrite Hrun. exact Hfile.
Defined.

(** X12. The first side that stops the loop ends the run: the inputs after
    it are not opened, so the outcome is the same whatever they are. *)
Theorem X12_later_inputs_not_read env anOutput pre f rest rest' st o :
  length (pre ++ f :: rest) = 6%nat ->
  length rest' = length rest ->
  string_empty anOutput = false ->
  main_loop env anOutput 0 pre initial_state = Next st ->
  main_body env anOutput (length pre) f st = Stop o ->
  main env (pre ++ f :: rest) anOutput = o
  /\ main env (pre ++ f :: rest') anOutput = o.
Proof.
  intros Hlen Hrest Hout Hpre Hbody. split.
  - exact (main_stops_at _ _ _ _ _ _ _ Hlen Hout Hpre Hbody).
  - apply (main_stops_at _ _ _ _ _ st); try assumption.
    rewrite length_app in *. cbn [length] in *. lia.
Qed.

Lemma X12_later_inputs_not_read_witness :
  main sample_env (mkInFile "PX.dds" None :: tl sample_input) "result.dds"
  = main sample_env (mkInFile "PX.dds" None :: repeat (mkInFile "gone" None) 5)
      "result.dds".
Proof.
  destruct (X12_later_inputs_not_read sample_env "result.dds" []
              (mkInFile "PX.dds" None) (tl sample_input)
              (repeat (mkInFile "gone" None) 5) initial_state
              (Return 1 (say (MsgUnableToRead "PX.dds") initial_state)))
    as (H1 & H2);
    [reflexivity | reflexivity | reflexivity | reflexivity | reflexivity |].
  cbn [app] in H1, H2. rewrite H1, H2. reflexivity.
Defined.




(* ------------------------------------------------------------------ *)
(** ** The result header and the result file as an input *)

Lemma result_header_idempotent (h : DDSFileHeader) :
  result_header (result_header h) = result_header h.
Proof.
  unfold result_header. cbn [set_Caps2 Caps2 Size Flags Height Width
    PitchOrLinearSize Depth MipMapCount Reserved1 PixelFormatDef Caps Caps3
    Caps4 Reserved2].
  rewrite <- Z.lor_assoc, Z.lor_diag. reflexivity.
Qed.

(** X15. Line 157 sets bits 9 to 15 of [Caps2] and leaves every other bit
    of it, and every other member of the header, as it was; doing it twice
    is doing it once. *)
Theorem X15_flag_sets_seven_bits (h : DDSFileHeader) :
  (forall n, 0 <= n ->
     Z.testbit (Caps2 (result_header h)) n
     = Z.testbit (Caps2 h) n || ((9 <=? n) && (n <=? 15)))
  /\ set_Caps2 (result_header h) (Caps2 h) = set_Caps2 h (Caps2 h)
  /\ result_header (result_header h) = result_header h.
Proof.
  split; [|split].
  - intros n Hn. unfold result_header. cbn [set_Caps2 Caps2].
    rewrite Z.lor_spec. f_equal.
    destruct (Z.testbit DDSCompleteCubemap n) eqn:B.
    + apply testbit_DDSCompleteCubemap in B.
      symmetry. apply andb_true_iff. split; apply Z.leb_le; lia.
    + destruct ((9 <=? n) && (n <=? 15)) eqn:R; [|reflexivity].
      apply andb_true_iff in R. destruct R as [R1 R2].
      apply Z.leb_le in R1, R2.
      assert (Bt : Z.testbit DDSCompleteCubemap n = true)
        by (apply testbit_DDSCompleteCubemap; lia).
      congruence.
  - reflexivity.
  - apply result_header_idempotent.
Qed.

Lemma face_sound_result_file (b0 : list byte) (bufs : list (list byte)) :
  face_sound b0 ->
  face_sound (result_file b0 bufs)
  /\ face_header (result_file b0 bufs) = result_header (face_header b0).
Proof.
  intros (Hm & H128 & Hs & Hp & Hw & Hh & Hsq).
  assert (Hdec : face_header (result_file b0 bufs) = result_header (face_header b0)).
  { unfold face_header at 1, result_file. cbn [DDS_magic app skipn].
    apply decode_encode_header, result_header_wf, face_header_wf. exact H128. }
  split; [|exact Hdec].
  unfold face_sound. rewrite Hdec.
  split; [reflexivity|]. split.
  { rewrite length_result_file by exact H128. lia. }
  unfold result_header.
  cbn [set_Caps2 Size PixelFormatDef Width Height]. tauto.
Qed.

Lemma firstn_128_result_file (b0 : list byte) (bufs : list (list byte)) :
  (128 <= length b0)%nat ->
  firstn 128 (result_file b0 bufs)
  = DDS_magic ++ encode_header (result_header (face_header b0)).
Proof.
  intros H128. unfold result_file.
  pose proof (length_encode_header _
                (proj2 (result_header_wf _ (face_header_wf b0 H128)))) as Henc.
  rewrite app_assoc, firstn_app.
  rewrite length_app, Henc. change (length DDS_magic) with 4%nat.
  change (128 - (4 + 124))%nat with 0%nat. rewrite firstn_O, app_nil_r.
  apply firstn_all2. rewrite length_app, Henc. cbn. lia.
Qed.

(** X16. The result file of a successful run passes every test the loop
    makes on an input (the inputs are not tested for being cube maps
    already), and a second run that is given this file as each of its six
    inputs succeeds and writes the same first 128 bytes again. *)
Theorem X16_result_file_as_input env anInput anOutput st out env' paths anOutput' :
  main env anInput anOutput = Return 0 st ->
  aResFile st = Some out ->
  out_opens env' = true -> out_good env' = true ->
  string_empty anOutput' = false ->
  length paths = 6%nat ->
  face_sound out
  /\ IscompleteCubemap (face_header out) = true
  /\ exists st' out',
       main env' (six_copies paths out) anOutput' = Return 0 st'
       /\ aResFile st' = Some out'
       /\ firstn 128 out' = firstn 128 out
       /\ skipn 128 out' = concat (repeat (skipn 128 out) 6).
Proof.
  intros Hrun Hfile Ho Hg Hout Hlen.
  apply main_Return_0_inv in Hrun.
  destruct Hrun as (b0 & bufs & _ & _ & Hs & _ & Hfile').
  rewrite Hfile in Hfile'. injection Hfile' as ->.
  inversion Hs as [|? ? Hs0 _]; subst.
  destruct (face_sound_result_file b0 bufs Hs0) as (Hsound & Hhdr).
  set (out := result_file b0 bufs) in *.
  split; [exact Hsound|]. split.
  { rewrite Hhdr. apply IscompleteCubemap_result_header. }
  do 6 (destruct paths as [|? paths]; [discriminate Hlen|]).
  destruct paths; [|discriminate Hlen].
  cbn [six_copies map].
  match goal with
  | |- context [main env' (?f :: ?rest) anOutput'] =>
      destruct (main_loop_sound env' anOutput' f rest out (repeat out 5) Ho
                  eq_refl eq_refl)
        as (st' & Hl & Hfile2 & _)
  end.
  { cbn [repeat]. repeat (apply Forall_cons; [exact Hsound|]). apply Forall_nil. }
  { cbn [repeat]. repeat (apply Forall_cons; [apply face_fits_refl|]).
    apply Forall_nil. }
  exists st', (result_file out (repeat out 5)).
  split.
  { unfold main. cbn [length Nat.eqb negb orb]. rewrite Hout, Hl, Hg. reflexivity. }
  split; [exact Hfile2|].
  assert (H128 : (128 <= length out)%nat) by apply Hsound.
  split.
  - rewrite firstn_128_result_file by exact H128.
    unfold out at 2.
    rewrite firstn_128_result_file by apply Hs0.
    fold (face_header out). rewrite Hhdr, result_header_idempotent. reflexivity.
  - unfold result_file at 1.
    pose proof (length_encode_header _
                  (proj2 (result_header_wf _ (face_header_wf out H128)))) as Henc.
    rewrite app_assoc, skipn_app.
    rewrite skipn_all2 by (rewrite length_app, Henc; cbn; lia).
    rewrite length_app, Henc. reflexivity.
Qed.

Lemma X16_result_file_as_input_witness :
  face_sound (result_file (hd [] sample_bufs) (tl sample_bufs))
  /\ IscompleteCubemap (face_header (result_file (hd [] sample_bufs) (tl sample_bufs)))
     = true.
Proof.
  destruct (main sample_env sample_input "result.dds") as [code st| |] eqn:E;
    try (vm_compute in E; discriminate E).
  destruct code as [|p|p]; try (vm_compute in E; discriminate E).
  destruct (X16_result_file_as_input sample_env sample_input "result.dds" st
              (result_file (hd [] sample_bufs) (tl sample_bufs))
              sample_env sample_paths "again.dds" E)
    as (Hsound & Hc & _).
  - vm_compute in E. injection E as <-. vm_compute. reflexivity.
  - reflexivity.
  - reflexivity.
  - reflexivity.
  - reflexivity.
  - split; assumption.
Defined.

(* ------------------------------------------------------------------ *)
(** ** The mip count, the header bytes and the magic test *)

(** X17. For 32-bit dimensions the complete mip count does not depend on
    which of the two is the width, lies between 1 and 32 (the counter never
    wraps), is 1 when neither dimension exceeds 1, and otherwise is the [n]
    with 2^(n-1) <= max < 2^n. *)
Theorem X17_mip_count_bounds (aWidth aHeight : Z) :
  uint32 aWidth -> uint32 aHeight ->
  exists n,
    expectedMipCount aWidth aHeight = Some n
    /\ expectedMipCount aHeight aWidth = Some n
    /\ 1 <= n <= 32
    /\ (Z.max aWidth aHeight <= 1 -> n = 1)
    /\ (1 <= Z.max aWidth aHeight ->
        2 ^ (n - 1) <= Z.max aWidth aHeight < 2 ^ n).
Proof.
  intros Hw Hh. exists (1 + Z.log2 (Z.max aWidth aHeight)).
  assert (Hm : uint32 (Z.max aWidth aHeight)) by (unfold uint32 in *; lia).
  pose proof (log2_uint32 _ Hm) as Hl.
  split; [apply expectedMipCount_log2; assumption|].
  split; [rewrite Z.max_comm; apply expectedMipCount_log2; assumption|].
  split; [lia|]. split.
  - intros Hsmall. rewrite log2_small by exact Hsmall. reflexivity.
  - intros Hbig.
    pose proof (Z.log2_spec (Z.max aWidth aHeight) ltac:(lia)) as Hspec.
    replace (1 + Z.log2 (Z.max aWidth aHeight) - 1)
      with (Z.log2 (Z.max aWidth aHeight)) by lia.
    replace (1 + Z.log2 (Z.max aWidth aHeight))
      with (Z.succ (Z.log2 (Z.max aWidth aHeight))) by lia.
    exact Hspec.
Qed.

Lemma X17_mip_count_bounds_witness :
  exists n,
    expectedMipCount 4294967295 3 = Some n
    /\ expectedMipCount 3 4294967295 = Some n
    /\ 1 <= n <= 32.
Proof.
  destruct (X17_mip_count_bounds 4294967295 3) as (n & H1 & H2 & H3 & _).
  - unfold uint32. lia.
  - unfold uint32. lia.
  - exists n. repeat split; try assumption; lia.
Defined.

(** X18. Reading a header from memory and writing it back gives the 124
    bytes it was read from, reserved words included; and a header whose
    members fit 32 bits is read back, member by member, from the 124 bytes
    it is written to. *)
Theorem X18_header_bytes_round_trip (bs rest : list byte) (h : DDSFileHeader) :
  (124 <= length bs)%nat ->
  header_wf h ->
  encode_header (decode_header bs) = firstn 124 bs
  /\ header_wf (decode_header bs)
  /\ length (encode_header h) = 124%nat
  /\ decode_header (encode_header h ++ rest) = h.
Proof.
  intros Hlen Hwf. split; [apply encode_decode_header; exact Hlen|].
  split; [apply decode_header_wf; exact Hlen|].
  split; [apply length_encode_header; apply Hwf|].
  apply decode_encode_header. exact Hwf.
Qed.

Lemma X18_header_bytes_round_trip_witness :
  decode_header (encode_header (sample_header 4 4 3 DXT1 0) ++ [x01])
  = sample_header 4 4 3 DXT1 0
  /\ encode_header (decode_header (skipn 4 wide_buf)) = firstn 124 (skipn 4 wide_buf).
Proof.
  destruct (X18_header_bytes_round_trip (skipn 4 wide_buf) [x01]
              (sample_header 4 4 3 DXT1 0))
    as (Henc & _ & _ & Hdec).
  - apply Nat.leb_le. reflexivity.
  - split; [|reflexivity].
    unfold words_of_header, sample_header, uint32, DXT1; cbn.
    repeat (apply Forall_cons; [lia|]). apply Forall_nil.
  - split; assumption.
Defined.

(** X19. When the run arrives at an input of four bytes or more that does
    not start with the magic or has fewer than 128 bytes, it ends with
    status 1 and the message that the file is not DDS, whatever else the
    file holds; the result file is as the earlier sides left it, and does
    not exist when the input is the first. *)
Theorem X19_not_dds_with_four_bytes env anOutput pre f rest st buf :
  length (pre ++ f :: rest) = 6%nat ->
  string_empty anOutput = false ->
  main_loop env anOutput 0 pre initial_state = Next st ->
  in_data f = Some buf ->
  (4 <= length buf)%nat ->
  firstn 4 buf <> DDS_magic \/ (length buf < 128)%nat ->
  exit_status (main env (pre ++ f :: rest) anOutput) = Some 1
  /\ last_msg (main env (pre ++ f :: rest) anOutput) = Some (MsgNotDDS (in_path f))
  /\ cerr (final_state (main env (pre ++ f :: rest) anOutput))
     = cerr st ++ [MsgNotDDS (in_path f)]
  /\ aResFile (final_state (main env (pre ++ f :: rest) anOutput)) = aResFile st
  /\ (pre = [] ->
      aResFile (final_state (main env (pre ++ f :: rest) anOutput)) = None).
Proof.
  intros Hlen Hout Hpre E H4 Hbad.
  destruct (not_dds_in_bounds env anOutput pre f rest st buf Hlen Hout Hpre E H4 Hbad)
    as (Hrun & _ & Hfile & Hnone).
  rewrite Hrun in *. rewrite last_msg_say. repeat split; assumption.
Qed.

Lemma X19_not_dds_with_four_bytes_witness :
  last_msg (main sample_env
              (mkInFile "PX.dds" (Some (firstn 100 (hd [] sample_bufs)))
                 :: tl sample_input) "result.dds")
  = Some (MsgNotDDS "PX.dds").
Proof.
  destruct (X19_not_dds_with_four_bytes sample_env "result.dds" []
              (mkInFile "PX.dds" (Some (firstn 100 (hd [] sample_bufs))))
              (tl sample_input) initial_state (firstn 100 (hd [] sample_bufs)))
    as (_ & Hmsg & _).
  - reflexivity.
  - reflexivity.
  - reflexivity.
  - reflexivity.
  - apply Nat.leb_le. reflexivity.
  - right. apply Nat.ltb_lt. reflexivity.
  - exact Hmsg.
Defined.
